(** * mcp-remote-proxy: the permission filter and the session handlers

    A shallow embedding of [src/permissions.ts], of [hasRequiredRoles]
    from [src/auth.ts] and of the connection handlers of [startServer]
    in [src/mcp-remote.ts], together with the parts of the JavaScript
    runtime these functions call ([Buffer.toString], [JSON.parse],
    [JSON.stringify], string conversion and truthiness); and of the
    listeners of [startClient], of [parseArgs], of the configuration
    [handleGeneratePermissions] writes and of [calculateBackoffDelay]
    from [src/types.ts]. *)

From Stdlib Require Import ZArith NArith List String Ascii Bool Lia.
From Stdlib Require Import SpecFloat.
From stdpp Require Import base option list gmap.

Local Open Scope N_scope.

(** * The JavaScript runtime *)

Module JS.

(** ** Strings and buffers *)

(** A JavaScript string is a sequence of UTF-16 code units. *)
Definition jsstring := list N.

(** A string literal of the source, all of whose characters are ASCII. *)
Definition lit (s : string) : jsstring :=
  (fun a => N_of_ascii a) <$> list_ascii_of_string s.

(** A [Buffer] is a sequence of bytes. *)
Definition Buffer := list Byte.byte.

Definition utf16_encode (cp : N) : jsstring :=
  if cp <? 0x10000 then [cp]
  else [0xD800 + N.shiftr (cp - 0x10000) 10; 0xDC00 + N.land (cp - 0x10000) 0x3FF].

(** The state of the UTF-8 decoder inside a multi-byte sequence: the
    number of continuation bytes still needed, the code point so far and
    the range the next byte has to lie in. *)
Record utf8_pending := {
  u_needed : nat;
  u_cp : N;
  u_lower : N;
  u_upper : N
}.

(** A byte met while no sequence is open. *)
Definition utf8_start (b : N) : jsstring * option utf8_pending :=
  if b <=? 0x7F then ([b], None)
  else if (0xC2 <=? b) && (b <=? 0xDF) then
    ([], Some {| u_needed := 1; u_cp := N.land b 0x1F; u_lower := 0x80; u_upper := 0xBF |})
  else if (0xE0 <=? b) && (b <=? 0xEF) then
    ([], Some {| u_needed := 2; u_cp := N.land b 0xF;
                 u_lower := if b =? 0xE0 then 0xA0 else 0x80;
                 u_upper := if b =? 0xED then 0x9F else 0xBF |})
  else if (0xF0 <=? b) && (b <=? 0xF4) then
    ([], Some {| u_needed := 3; u_cp := N.land b 0x7;
                 u_lower := if b =? 0xF0 then 0x90 else 0x80;
                 u_upper := if b =? 0xF4 then 0x8F else 0xBF |})
  else ([0xFFFD], None).

(** UTF-8 decoding with U+FFFD for every ill-formed subsequence. *)
Fixpoint utf8_decode (st : option utf8_pending) (bs : list N) : jsstring :=
  match bs with
  | [] => match st with None => [] | Some _ => [0xFFFD] end
  | b :: bs' =>
    match st with
    | None => let '(out, st') := utf8_start b in out ++ utf8_decode st' bs'
    | Some p =>
      if (u_lower p <=? b) && (b <=? u_upper p) then
        let cp := N.lor (N.shiftl (u_cp p) 6) (N.land b 0x3F) in
        match u_needed p with
        | 0%nat | 1%nat => utf16_encode cp ++ utf8_decode None bs'
        | S n => utf8_decode (Some {| u_needed := n; u_cp := cp;
                                      u_lower := 0x80; u_upper := 0xBF |}) bs'
        end
      else
        let '(out, st') := utf8_start b in 0xFFFD :: out ++ utf8_decode st' bs'
    end
  end.

(** [data.toString()] *)
Definition Buffer_toString (data : Buffer) : jsstring :=
  utf8_decode None (Byte.to_N <$> data).

(** The buffer holding an ASCII literal. *)
Definition buf (s : string) : Buffer := list_byte_of_string s.

(** A text of the scenarios, written with a backquote in the place of
    every double quote, and the buffer holding such a text. *)
Definition json (s : string) : jsstring :=
  (fun c => if c =? 96 then 34 else c) <$> lit s.

Definition json_buf (s : string) : Buffer :=
  (fun b => if Byte.eqb b Byte.x60 then Byte.x22 else b) <$> list_byte_of_string s.

(** [String.prototype.split('\n')] *)
Fixpoint split_newline (s : jsstring) : list jsstring :=
  match s with
  | [] => [[]]
  | c :: s' =>
    if c =? 10 then [] :: split_newline s'
    else match split_newline s' with
         | l :: ls => (c :: l) :: ls
         | [] => [[c]]
         end
  end.

(** White space and line terminators, as [String.prototype.trim] strips them. *)
Definition is_trim_space (c : N) : bool :=
  ((9 <=? c) && (c <=? 13)) || (c =? 0x20) || (c =? 0xA0) || (c =? 0x1680)
  || ((0x2000 <=? c) && (c <=? 0x200A)) || (c =? 0x2028) || (c =? 0x2029)
  || (c =? 0x202F) || (c =? 0x205F) || (c =? 0x3000) || (c =? 0xFEFF).

Fixpoint trim_start (s : jsstring) : jsstring :=
  match s with
  | c :: s' => if is_trim_space c then trim_start s' else s
  | [] => []
  end.

(** [String.prototype.trim] *)
Definition trim (s : jsstring) : jsstring :=
  rev (trim_start (rev (trim_start s))).

(** Truthiness of a string. *)
Definition string_truthy (s : jsstring) : bool :=
  match s with [] => false | _ => true end.

(** ** Numbers *)

(** A Number is an IEEE 754 binary64 value. *)
Definition number := spec_float.

Definition prec : Z := 53.
Definition emax : Z := 1024.

Definition number_of_Z (z : Z) : number := binary_normalize prec emax z 0 false.

Definition digit_count (z : Z) : Z :=
  Z.of_nat (Decimal.nb_digits (N.to_uint (Z.to_N z))).

(** The Number nearest to [m * 10^e], ties to even. *)
Definition of_decimal (neg : bool) (m : N) (e : Z) : number :=
  match m with
  | N0 => S754_zero neg
  | Npos p =>
    let d := digit_count (Zpos p) in
    if (d + e <=? -330)%Z then S754_zero neg
    else if (310 <=? d - 1 + e)%Z then S754_infinity neg
    else if (0 <=? e)%Z then
      binary_normalize prec emax ((if neg then Zneg p else Zpos p) * 10 ^ e) 0 false
    else
      let '(q, e', l) := SFdiv_core_binary prec emax (Zpos p) 0 (10 ^ (- e)) 0 in
      binary_round_aux prec emax neg q e' l
  end.

Definition number_eqb (x y : number) : bool :=
  match x, y with
  | S754_finite s1 m1 e1, S754_finite s2 m2 e2 =>
    Bool.eqb s1 s2 && Pos.eqb m1 m2 && Z.eqb e1 e2
  | S754_zero _, S754_zero _ => true
  | S754_infinity s1, S754_infinity s2 => Bool.eqb s1 s2
  | _, _ => false
  end.

Definition number_truthy (x : number) : bool :=
  match x with
  | S754_zero _ | S754_nan => false
  | _ => true
  end.

Definition number_finite (x : number) : bool :=
  match x with
  | S754_zero _ | S754_finite _ _ _ => true
  | _ => false
  end.

Fixpoint uint_codes (u : Decimal.uint) : jsstring :=
  match u with
  | Decimal.Nil => []
  | Decimal.D0 u => 48 :: uint_codes u
  | Decimal.D1 u => 49 :: uint_codes u
  | Decimal.D2 u => 50 :: uint_codes u
  | Decimal.D3 u => 51 :: uint_codes u
  | Decimal.D4 u => 52 :: uint_codes u
  | Decimal.D5 u => 53 :: uint_codes u
  | Decimal.D6 u => 54 :: uint_codes u
  | Decimal.D7 u => 55 :: uint_codes u
  | Decimal.D8 u => 56 :: uint_codes u
  | Decimal.D9 u => 57 :: uint_codes u
  end.

(** The decimal digits of a natural number. *)
Definition decimal_digits (z : Z) : jsstring := uint_codes (N.to_uint (Z.to_N z)).

(** The least [j >= 1] with [den <= num * 10^j], for [num < den]. *)
Fixpoint leading_zeros (fuel : nat) (num den j : Z) : Z :=
  match fuel with
  | O => j
  | S fuel' =>
    if (den <=? num * 10)%Z then j
    else leading_zeros fuel' (num * 10) den (j + 1)
  end.

(** The [n] with [10^(n-1) <= num/den < 10^n]. *)
Definition decimal_exponent (num den : Z) : Z :=
  if (den <=? num)%Z then digit_count (num / den)
  else (1 - leading_zeros 400 num den 1)%Z.

(** The shortest digit string [s] of [k] digits, [k] from the given one
    on, for which [s * 10^(n-k)] reads back as [x]; of two such the one
    nearer to [x], and on a tie the even one. *)
Fixpoint shortest_digits (fuel : nat) (x : number) (num den n k : Z) : Z * Z :=
  let '(a, b) := if (n <=? k)%Z then (num * 10 ^ (k - n), den)%Z
                 else (num, den * 10 ^ (n - k))%Z in
  let lo := (a / b)%Z in
  let r := (a mod b)%Z in
  let hi := (lo + 1)%Z in
  let back s := number_eqb (of_decimal false (Z.to_N s) (n - k)) x in
  let pick s := if (s =? 10 ^ k)%Z then (1%Z, (n + 1)%Z) else (s, n) in
  match fuel with
  | O => (lo, n)
  | S fuel' =>
    if (r =? 0)%Z then (lo, n)
    else
      match back lo, back hi with
      | true, true =>
        match (2 * r ?= b)%Z with
        | Lt => (lo, n)
        | Gt => pick hi
        | Eq => if Z.even lo then (lo, n) else pick hi
        end
      | true, false => (lo, n)
      | false, true => pick hi
      | false, false => shortest_digits fuel' x num den n (k + 1)
      end
  end.

Definition zeros (n : Z) : jsstring := repeat 48 (Z.to_nat n).

(** [Number::toString] in radix 10, for a positive finite number whose
    digits are [ds] and whose decimal exponent is [n]. *)
Definition format_digits (ds : jsstring) (n : Z) : jsstring :=
  let k := Z.of_nat (length ds) in
  if (k <=? n)%Z && (n <=? 21)%Z then ds ++ zeros (n - k)
  else if (0 <? n)%Z && (n <=? 21)%Z then
    firstn (Z.to_nat n) ds ++ 46 :: skipn (Z.to_nat n) ds
  else if (-6 <? n)%Z && (n <=? 0)%Z then 48 :: 46 :: zeros (- n) ++ ds
  else
    let e := (n - 1)%Z in
    let ex := (if (e <? 0)%Z then 45 else 43) :: decimal_digits (Z.abs e) in
    match ds with
    | [] => []
    | [d] => d :: 101 :: ex
    | d :: rest => d :: 46 :: rest ++ 101 :: ex
    end.

(** [Number::toString(x)] *)
Definition Number_toString (x : number) : jsstring :=
  match x with
  | S754_nan => lit "NaN"
  | S754_zero _ => lit "0"
  | S754_infinity s => if s then lit "-Infinity" else lit "Infinity"
  | S754_finite s m e =>
    let '(num, den) := if (0 <=? e)%Z then (Zpos m * 2 ^ e, 1)%Z
                       else (Zpos m, 2 ^ (- e))%Z in
    let n := decimal_exponent num den in
    let '(digits, n') := shortest_digits 17 (S754_finite false m e) num den n 1 in
    (if s then [45] else []) ++ format_digits (decimal_digits digits) n'
  end.

(** ** Values *)

(** The values [JSON.parse] returns. The properties of an object are
    kept in the order in which JavaScript enumerates them. *)
Unset Elimination Schemes.
Inductive JSValue :=
| JNull
| JBool (b : bool)
| JNumber (x : number)
| JString (s : jsstring)
| JArray (elems : list JSValue)
| JObject (props : list (jsstring * JSValue)).
Set Elimination Schemes.

Definition jsstring_eqb (a b : jsstring) : bool := bool_decide (a = b).

(** [ToBoolean] *)
Definition ToBoolean (v : JSValue) : bool :=
  match v with
  | JNull => false
  | JBool b => b
  | JNumber x => number_truthy x
  | JString s => string_truthy s
  | JArray _ | JObject _ => true
  end.

(** Truthiness of a value that may be [undefined]. *)
Definition truthy (v : option JSValue) : bool :=
  match v with
  | Some v => ToBoolean v
  | None => false
  end.

Fixpoint join (sep : jsstring) (parts : list jsstring) : jsstring :=
  match parts with
  | [] => []
  | [p] => p
  | p :: ps => p ++ sep ++ join sep ps
  end.

(** [ToString], as a template literal applies it. *)
Fixpoint ToString (v : JSValue) : jsstring :=
  match v with
  | JNull => lit "null"
  | JBool b => if b then lit "true" else lit "false"
  | JNumber x => Number_toString x
  | JString s => s
  | JArray elems =>
    join [44] ((fix each (l : list JSValue) : list jsstring :=
                  match l with
                  | [] => []
                  | JNull :: l' => [] :: each l'
                  | e :: l' => ToString e :: each l'
                  end) elems)
  | JObject _ => lit "[object Object]"
  end.

(** The own property [k] of an object. *)
Fixpoint obj_get (props : list (jsstring * JSValue)) (k : jsstring) : option JSValue :=
  match props with
  | [] => None
  | (k', v) :: props' => if jsstring_eqb k' k then Some v else obj_get props' k
  end.

(** Property access [v.k] on a value. [None] is [undefined]; reading a
    property of [null] throws, which the callers below treat alike. *)
Definition get_property (v : JSValue) (k : jsstring) : option JSValue :=
  match v with
  | JObject props => obj_get props k
  | _ => None
  end.

Definition is_digit (c : N) : bool := (48 <=? c) && (c <=? 57).

Fixpoint digits_value (acc : N) (s : jsstring) : option N :=
  match s with
  | [] => Some acc
  | c :: s' => if is_digit c then digits_value (acc * 10 + (c - 48)) s' else None
  end.

(** The array index a property key denotes, if it is one. *)
Definition array_index (k : jsstring) : option N :=
  match k with
  | [] => None
  | [48] => Some 0
  | 48 :: _ => None
  | _ =>
    if (length k <=? 10)%nat then
      match digits_value 0 k with
      | Some n => if n <=? 4294967294 then Some n else None
      | None => None
      end
    else None
  end.

Fixpoint obj_replace (props : list (jsstring * JSValue)) (k : jsstring) (v : JSValue)
  : list (jsstring * JSValue) :=
  match props with
  | [] => []
  | (k', v') :: props' =>
    if jsstring_eqb k' k then (k', v) :: props'
    else (k', v') :: obj_replace props' k v
  end.

Fixpoint obj_insert_index (props : list (jsstring * JSValue)) (i : N)
    (k : jsstring) (v : JSValue) : list (jsstring * JSValue) :=
  match props with
  | [] => [(k, v)]
  | (k', v') :: props' =>
    match array_index k' with
    | Some j => if j <? i then (k', v') :: obj_insert_index props' i k v
                else (k, v) :: props
    | None => (k, v) :: props
    end
  end.

(** Defining property [k]: an existing property keeps its place, a new
    array index goes among the indices in ascending order, any other new
    key goes last. *)
Definition obj_set (props : list (jsstring * JSValue)) (k : jsstring) (v : JSValue)
  : list (jsstring * JSValue) :=
  match obj_get props k with
  | Some _ => obj_replace props k v
  | None =>
    match array_index k with
    | Some i => obj_insert_index props i k v
    | None => props ++ [(k, v)]
    end
  end.

(** ** [JSON.parse] *)

(** The parser reads the text once, code unit by code unit, with the
    containers it is inside of on a stack. *)
Inductive frame :=
| FArray (elems : list JSValue)
    (* the elements read so far, last one first *)
| FObject (props : list (jsstring * JSValue)) (key : jsstring).
    (* the properties defined so far and the name of the member being read *)

Inductive numst :=
| NSign | NZero | NInt | NDot | NFrac | NExp | NExpSign | NExpDigits.

Record numacc := {
  n_neg : bool;    (* a leading minus *)
  n_mant : N;      (* the digits of the integer and fraction parts *)
  n_scale : Z;     (* the number of fraction digits *)
  n_eneg : bool;   (* a minus in the exponent *)
  n_exp : N        (* the digits of the exponent *)
}.

Inductive mode :=
| MValue (allow_close : bool)
    (* a value comes next; right after an opening bracket, so may the closing one *)
| MKey (allow_close : bool)
    (* a member name comes next; right after an opening brace, so may the closing one *)
| MColon
| MAfter
| MString (iskey : bool) (acc : jsstring)
| MEscape (iskey : bool) (acc : jsstring)
| MHex (iskey : bool) (acc : jsstring) (todo : nat) (v : N)
| MNumber (st : numst) (a : numacc)
| MLiteral (rest : jsstring) (v : JSValue).

Record pstate := {
  stack : list frame;
  pmode : mode;
  result : option JSValue
}.

Definition is_json_space (c : N) : bool :=
  (c =? 0x20) || (c =? 0x09) || (c =? 0x0A) || (c =? 0x0D).

Definition hex_value (c : N) : option N :=
  if is_digit c then Some (c - 48)
  else if (97 <=? c) && (c <=? 102) then Some (c - 87)
  else if (65 <=? c) && (c <=? 70) then Some (c - 55)
  else None.

(** A value is complete: it is the text's value, an element of the array
    on top of the stack, or the value of the member being read. *)
Definition complete (v : JSValue) (stk : list frame) : pstate :=
  match stk with
  | [] => {| stack := []; pmode := MAfter; result := Some v |}
  | FArray elems :: stk' =>
    {| stack := FArray (v :: elems) :: stk'; pmode := MAfter; result := None |}
  | FObject props k :: stk' =>
    {| stack := FObject (obj_set props k v) k :: stk'; pmode := MAfter; result := None |}
  end.

Definition close_array (stk : list frame) : option pstate :=
  match stk with
  | FArray elems :: stk' => Some (complete (JArray (rev elems)) stk')
  | _ => None
  end.

Definition close_object (stk : list frame) : option pstate :=
  match stk with
  | FObject props _ :: stk' => Some (complete (JObject props) stk')
  | _ => None
  end.

Definition step_after (st : pstate) (c : N) : option pstate :=
  if is_json_space c then Some st
  else if c =? 44 then
    match stack st with
    | FArray _ :: _ => Some {| stack := stack st; pmode := MValue false; result := None |}
    | FObject _ _ :: _ => Some {| stack := stack st; pmode := MKey false; result := None |}
    | [] => None
    end
  else if c =? 93 then close_array (stack st)
  else if c =? 125 then close_object (stack st)
  else None.

Definition num_start (neg : bool) (m : N) : numacc :=
  {| n_neg := neg; n_mant := m; n_scale := 0; n_eneg := false; n_exp := 0 |}.

Definition step_value (allow_close : bool) (st : pstate) (c : N) : option pstate :=
  let go m := Some {| stack := stack st; pmode := m; result := None |} in
  if is_json_space c then Some st
  else if c =? 34 then go (MString false [])
  else if c =? 91 then
    Some {| stack := FArray [] :: stack st; pmode := MValue true; result := None |}
  else if c =? 123 then
    Some {| stack := FObject [] [] :: stack st; pmode := MKey true; result := None |}
  else if c =? 93 then (if allow_close then close_array (stack st) else None)
  else if c =? 45 then go (MNumber NSign (num_start true 0))
  else if c =? 48 then go (MNumber NZero (num_start false 0))
  else if is_digit c then go (MNumber NInt (num_start false (c - 48)))
  else if c =? 116 then go (MLiteral (lit "rue") (JBool true))
  else if c =? 102 then go (MLiteral (lit "alse") (JBool false))
  else if c =? 110 then go (MLiteral (lit "ull") JNull)
  else None.

Definition step_key (allow_close : bool) (st : pstate) (c : N) : option pstate :=
  if is_json_space c then Some st
  else if c =? 34 then Some {| stack := stack st; pmode := MString true []; result := None |}
  else if c =? 125 then (if allow_close then close_object (stack st) else None)
  else None.

Definition end_string (iskey : bool) (s : jsstring) (stk : list frame) : option pstate :=
  if iskey then
    match stk with
    | FObject props _ :: stk' =>
      Some {| stack := FObject props s :: stk'; pmode := MColon; result := None |}
    | _ => None
    end
  else Some (complete (JString s) stk).

Definition num_accepting (s : numst) : bool :=
  match s with
  | NZero | NInt | NFrac | NExpDigits => true
  | _ => false
  end.

Definition num_value (a : numacc) : JSValue :=
  JNumber (of_decimal (n_neg a) (n_mant a)
             ((if n_eneg a then - Z.of_N (n_exp a) else Z.of_N (n_exp a)) - n_scale a)%Z).

Definition is_e (c : N) : bool := (c =? 101) || (c =? 69).

(** A code unit inside a number: the next state of the number, [None]
    where the number cannot go on with it. *)
Definition num_next (s : numst) (a : numacc) (c : N) : option (numst * numacc) :=
  let int_digit := {| n_neg := n_neg a; n_mant := n_mant a * 10 + (c - 48);
                      n_scale := n_scale a; n_eneg := n_eneg a; n_exp := n_exp a |} in
  let frac_digit := {| n_neg := n_neg a; n_mant := n_mant a * 10 + (c - 48);
                       n_scale := n_scale a + 1; n_eneg := n_eneg a; n_exp := n_exp a |} in
  let exp_digit := {| n_neg := n_neg a; n_mant := n_mant a;
                      n_scale := n_scale a; n_eneg := n_eneg a;
                      n_exp := n_exp a * 10 + (c - 48) |} in
  let exp_minus := {| n_neg := n_neg a; n_mant := n_mant a;
                      n_scale := n_scale a; n_eneg := true; n_exp := n_exp a |} in
  match s with
  | NSign =>
    if c =? 48 then Some (NZero, a)
    else if is_digit c then Some (NInt, int_digit) else None
  | NZero =>
    if c =? 46 then Some (NDot, a) else if is_e c then Some (NExp, a) else None
  | NInt =>
    if is_digit c then Some (NInt, int_digit)
    else if c =? 46 then Some (NDot, a) else if is_e c then Some (NExp, a) else None
  | NDot => if is_digit c then Some (NFrac, frac_digit) else None
  | NFrac =>
    if is_digit c then Some (NFrac, frac_digit)
    else if is_e c then Some (NExp, a) else None
  | NExp =>
    if c =? 43 then Some (NExpSign, a)
    else if c =? 45 then Some (NExpSign, exp_minus)
    else if is_digit c then Some (NExpDigits, exp_digit) else None
  | NExpSign => if is_digit c then Some (NExpDigits, exp_digit) else None
  | NExpDigits => if is_digit c then Some (NExpDigits, exp_digit) else None
  end.

Definition step (st : pstate) (c : N) : option pstate :=
  let go m := Some {| stack := stack st; pmode := m; result := None |} in
  match pmode st with
  | MValue allow_close => step_value allow_close st c
  | MKey allow_close => step_key allow_close st c
  | MColon =>
    if is_json_space c then Some st
    else if c =? 58 then go (MValue false) else None
  | MAfter => step_after st c
  | MString iskey acc =>
    if c =? 34 then end_string iskey (rev acc) (stack st)
    else if c =? 92 then go (MEscape iskey acc)
    else if c <? 0x20 then None
    else go (MString iskey (c :: acc))
  | MEscape iskey acc =>
    if (c =? 34) || (c =? 92) || (c =? 47) then go (MString iskey (c :: acc))
    else if c =? 98 then go (MString iskey (8 :: acc))
    else if c =? 102 then go (MString iskey (12 :: acc))
    else if c =? 110 then go (MString iskey (10 :: acc))
    else if c =? 114 then go (MString iskey (13 :: acc))
    else if c =? 116 then go (MString iskey (9 :: acc))
    else if c =? 117 then go (MHex iskey acc 4 0)
    else None
  | MHex iskey acc todo v =>
    match hex_value c with
    | Some d =>
      match todo with
      | 0%nat | 1%nat => go (MString iskey ((v * 16 + d) :: acc))
      | S todo' => go (MHex iskey acc todo' (v * 16 + d))
      end
    | None => None
    end
  | MNumber s a =>
    match num_next s a c with
    | Some (s', a') => go (MNumber s' a')
    | None =>
      if num_accepting s then step_after (complete (num_value a) (stack st)) c
      else None
    end
  | MLiteral rest v =>
    match rest with
    | [] => None
    | r :: rest' =>
      if c =? r then
        match rest' with
        | [] => Some (complete v (stack st))
        | _ => go (MLiteral rest' v)
        end
      else None
    end
  end.

(** The end of the text. *)
Definition finish (st : pstate) : option JSValue :=
  match pmode st with
  | MAfter => result st
  | MNumber s a =>
    if num_accepting s then
      match stack st with
      | [] => Some (num_value a)
      | _ => None
      end
    else None
  | _ => None
  end.

Fixpoint run (st : pstate) (s : jsstring) : option JSValue :=
  match s with
  | [] => finish st
  | c :: s' =>
    match step st c with
    | Some st' => run st' s'
    | None => None
    end
  end.

(** The state the parser starts in. *)
Definition start_state : pstate :=
  {| stack := []; pmode := MValue false; result := None |}.

(** [JSON.parse(text)]; [None] where it throws a SyntaxError. *)
Definition JSON_parse (text : jsstring) : option JSValue := run start_state text.

(** ** [JSON.stringify] *)

Definition hex_digit (d : N) : N := if d <? 10 then 48 + d else 87 + d.

(** The escape of a code unit by its four hexadecimal digits. *)
Definition unicode_escape (c : N) : jsstring :=
  [92; 117; hex_digit (N.shiftr c 12); hex_digit (N.land (N.shiftr c 8) 15);
   hex_digit (N.land (N.shiftr c 4) 15); hex_digit (N.land c 15)].

Definition is_high_surrogate (c : N) : bool := (0xD800 <=? c) && (c <=? 0xDBFF).
Definition is_low_surrogate (c : N) : bool := (0xDC00 <=? c) && (c <=? 0xDFFF).

Definition quote_unit (c : N) : jsstring :=
  if c =? 8 then [92; 98]
  else if c =? 9 then [92; 116]
  else if c =? 10 then [92; 110]
  else if c =? 12 then [92; 102]
  else if c =? 13 then [92; 114]
  else if c =? 34 then [92; 34]
  else if c =? 92 then [92; 92]
  else if (c <? 0x20) || is_high_surrogate c || is_low_surrogate c then unicode_escape c
  else [c].

Fixpoint quote_units (s : jsstring) : jsstring :=
  match s with
  | [] => []
  | c :: s' =>
    if is_high_surrogate c then
      match s' with
      | d :: s'' =>
        if is_low_surrogate d then c :: d :: quote_units s''
        else unicode_escape c ++ quote_units s'
      | [] => unicode_escape c
      end
    else quote_unit c ++ quote_units s'
  end.

(** [QuoteJSONString] *)
Definition quote (s : jsstring) : jsstring := 34 :: quote_units s ++ [34].

(** [JSON.stringify(v)] without indentation. *)
Fixpoint JSON_stringify (v : JSValue) : jsstring :=
  match v with
  | JNull => lit "null"
  | JBool b => if b then lit "true" else lit "false"
  | JNumber x => if number_finite x then Number_toString x else lit "null"
  | JString s => quote s
  | JArray elems =>
    91 :: join [44] ((fix each (l : list JSValue) : list jsstring :=
                        match l with
                        | [] => []
                        | e :: l' => JSON_stringify e :: each l'
                        end) elems) ++ [93]
  | JObject props =>
    123 :: join [44] ((fix each (l : list (jsstring * JSValue)) : list jsstring :=
                         match l with
                         | [] => []
                         | (k, e) :: l' => (quote k ++ 58 :: JSON_stringify e) :: each l'
                         end) props) ++ [125]
  end.

(** ** [Buffer.from(string)] *)

Definition byte_of (n : N) : Byte.byte := default Byte.x00 (Byte.of_N n).

Definition utf8_encode (cp : N) : Buffer :=
  if cp <? 0x80 then [byte_of cp]
  else if cp <? 0x800 then
    [byte_of (0xC0 + N.shiftr cp 6); byte_of (0x80 + N.land cp 0x3F)]
  else if cp <? 0x10000 then
    [byte_of (0xE0 + N.shiftr cp 12); byte_of (0x80 + N.land (N.shiftr cp 6) 0x3F);
     byte_of (0x80 + N.land cp 0x3F)]
  else
    [byte_of (0xF0 + N.shiftr cp 18); byte_of (0x80 + N.land (N.shiftr cp 12) 0x3F);
     byte_of (0x80 + N.land (N.shiftr cp 6) 0x3F); byte_of (0x80 + N.land cp 0x3F)].

(** UTF-8 encoding; a surrogate without its partner becomes U+FFFD. *)
Fixpoint Buffer_from (s : jsstring) : Buffer :=
  match s with
  | [] => []
  | c :: s' =>
    if is_high_surrogate c then
      match s' with
      | d :: s'' =>
        if is_low_surrogate d then
          utf8_encode (0x10000 + N.shiftl (c - 0xD800) 10 + (d - 0xDC00)) ++ Buffer_from s''
        else utf8_encode 0xFFFD ++ Buffer_from s'
      | [] => utf8_encode 0xFFFD
      end
    else if is_low_surrogate c then utf8_encode 0xFFFD ++ Buffer_from s'
    else utf8_encode c ++ Buffer_from s'
  end.

End JS.

(** * [src/permissions.ts] *)

Module Permissions.
Import JS.

(** The optional [allowedParams] and [blockedParams] of the interface are
    read nowhere in the program and are left out. *)
Record RolePermissions := {
  allowedMethods : list jsstring;
  blockedMethods : list jsstring
}.

(** [permissions] is an object used as a map from role names to
    [RolePermissions]; it is modelled by the finite map of its own
    properties. *)
Record PermissionsConfig := {
  permissions : gmap jsstring RolePermissions
}.

(** [fs.readFileSync(path, 'utf-8')]: the text of the file, [None] where
    the call throws. *)
Definition FileSystem := jsstring -> option jsstring.

(** The result is [JNull] where the source returns [null]. *)
Definition loadPermissionsConfig (fs : FileSystem) (configPath : jsstring) : JSValue :=
  match fs configPath with
  | Some configData =>
    match JSON_parse configData with
    | Some config => config
    | None => JNull
    end
  | None => JNull
  end.

(** An [MCPMessage] is whatever value [JSON.parse] returned: the cast in
    [parseMCPMessage] checks nothing. Its fields are read as properties. *)
Definition MCPMessage := JSValue.

Definition jsonrpc (message : MCPMessage) : option JSValue :=
  get_property message (lit "jsonrpc").
Definition method (message : MCPMessage) : option JSValue :=
  get_property message (lit "method").
Definition id (message : MCPMessage) : option JSValue :=
  get_property message (lit "id").

(** [message.jsonrpc === "2.0"] *)
Definition is_version_2 (message : MCPMessage) : bool :=
  match jsonrpc message with
  | Some (JString s) => jsstring_eqb s (lit "2.0")
  | _ => false
  end.

(** The loop of [parseMCPMessage] over the lines. *)
Fixpoint first_message (lines : list jsstring) : option MCPMessage :=
  match lines with
  | [] => None
  | line :: rest =>
    match JSON_parse line with
    | Some message =>
      if is_version_2 message then Some message else first_message rest
    | None => first_message rest
    end
  end.

Definition parseMCPMessage (data : jsstring) : option MCPMessage :=
  first_message
    (List.filter (fun line => string_truthy (trim line)) (split_newline data)).

(** [list.includes(v)] on an array of strings. *)
Definition includes (l : list jsstring) (v : JSValue) : bool :=
  match v with
  | JString s => existsb (jsstring_eqb s) l
  | _ => false
  end.

Definition star : JSValue := JString (lit "*").

(** The loop of [isMethodAllowed] over the roles. *)
Fixpoint scan_roles (method : JSValue) (userRoles : list jsstring)
    (permissionsConfig : PermissionsConfig) : bool :=
  match userRoles with
  | [] => false
  | role :: rest =>
    match permissions permissionsConfig !! role with
    | None => scan_roles method rest permissionsConfig
    | Some rolePerms =>
      if includes (blockedMethods rolePerms) method
         || includes (blockedMethods rolePerms) star then false
      else if includes (allowedMethods rolePerms) method
              || includes (allowedMethods rolePerms) star then true
      else scan_roles method rest permissionsConfig
    end
  end.

Definition isMethodAllowed (method : JSValue) (userRoles : list jsstring)
    (permissionsConfig : PermissionsConfig) : bool :=
  match userRoles with
  | [] => false
  | _ => scan_roles method userRoles permissionsConfig
  end.

Definition error_code : number := number_of_Z (-32601).

(** The object [createErrorResponse] serializes, for the value its [id]
    property gets. *)
Definition error_object (id_value : JSValue) (message : jsstring) : JSValue :=
  JObject
    [ (lit "jsonrpc", JString (lit "2.0"));
      (lit "id", id_value);
      (lit "error",
       JObject [ (lit "code", JNumber error_code);
                 (lit "message", JString (lit "Method not allowed: " ++ message)) ]) ].

(** [id || null] picks [null] for every falsy [id]. *)
Definition createErrorResponse (id : option JSValue) (message : jsstring) : jsstring :=
  let errorResponse :=
    error_object (match id with
                  | Some v => if ToBoolean v then v else JNull
                  | None => JNull
                  end) message in
  JSON_stringify errorResponse ++ [10].

Record FilterResult := {
  allowed : bool;
  response : option jsstring;
  filteredData : option Buffer
}.

Definition pass (data : Buffer) : FilterResult :=
  {| allowed := true; response := None; filteredData := Some data |}.

Definition deny (errorResponse : jsstring) : FilterResult :=
  {| allowed := false; response := Some errorResponse; filteredData := None |}.

Definition denied_message (method : JSValue) : jsstring :=
  lit "Access denied for method '" ++ ToString method ++ lit "'".

Definition createMessageFilter (userRoles : list jsstring)
    (permissionsConfig : option PermissionsConfig) (data : Buffer) : FilterResult :=
  match permissionsConfig with
  | None => pass data
  | Some config =>
    match parseMCPMessage (Buffer_toString data) with
    | None => pass data
    | Some message =>
      match method message with
      | None => pass data
      | Some m =>
        if negb (ToBoolean m) then pass data
        else if negb (isMethodAllowed m userRoles config) then
          deny (createErrorResponse (id message) (denied_message m))
        else pass data
      end
    end
  end.

End Permissions.

(** * [src/auth.ts] *)

Module Auth.
Import JS.

Definition hasRequiredRoles (userRoles : option (list jsstring))
    (requiredRoles : list jsstring) : bool :=
  match requiredRoles with
  | [] => true
  | _ =>
    match userRoles with
    | None | Some [] => false
    | Some roles =>
      existsb (fun role => existsb (jsstring_eqb role) roles) requiredRoles
    end
  end.

End Auth.

(** * The connection handlers of [startServer] in [src/mcp-remote.ts]

    The model covers what the server does with the inbound traffic of one
    connection and with the timers of that connection; time is counted in
    milliseconds. The forwarding of the subprocess output and the
    liveness pings change nothing of it and are left out. *)

Module Server.
Import JS Permissions Auth.

Local Open Scope Z_scope.

Inductive Protocol := tcp | ws.

(** The fields of [Options] the handlers read. *)
Record Options := {
  protocol : Protocol;
  jwtSecret : option jsstring;
  requiredRoles : option (list jsstring);
  permissionsConfig : option jsstring
}.

Record JWTPayload := {
  user : option jsstring;
  roles : option (list jsstring)
}.

(** What a handler does to the outside. *)
Inductive Effect :=
| Send (data : jsstring)         (* [socket.write] or [ws.send] of a string to the peer *)
| WriteStdin (data : Buffer)     (* [proc.stdin.write] *)
| EndSocket                      (* [socket.end()] *)
| DestroySocket                  (* [socket.destroy()] *)
| CloseSocket.                   (* [ws.close()] *)

(** ** Startup *)

Inductive Startup :=
| Exit (code : Z)
    (* [process.exit(code)] *)
| Listening (config : option JSValue).
    (* the server goes on with this value of its variable [permissionsConfig];
       [None] is the initial [null] *)

Definition optional_string_truthy (s : option jsstring) : bool :=
  match s with
  | Some s => string_truthy s
  | None => false
  end.

(** The first statements of [startServer]. *)
Definition startServer (fs : FileSystem) (options : Options) : Startup :=
  if optional_string_truthy (permissionsConfig options) then
    let config := loadPermissionsConfig fs (default [] (permissionsConfig options)) in
    if negb (ToBoolean config) then Exit 1
    else Listening (Some config)
  else Listening None.

(** ** The messages of the handshake *)

Definition error_message (code : Z) (message : string) (data : list (jsstring * JSValue))
  : JSValue :=
  JObject [ (lit "jsonrpc", JString (lit "2.0"));
            (lit "error", JObject [ (lit "code", JNumber (number_of_Z code));
                                    (lit "message", JString (lit message));
                                    (lit "data", JObject data) ]) ].

Definition strings (l : list jsstring) : JSValue := JArray (JString <$> l).

Definition roles_or_empty (payload : JWTPayload) : list jsstring :=
  default [] (roles payload).

Definition insufficient_roles (required : list jsstring) (payload : JWTPayload) : jsstring :=
  JSON_stringify
    (error_message (-32001) "Insufficient roles"
       [ (lit "required", strings required);
         (lit "provided", strings (roles_or_empty payload)) ]).

Definition authentication_failed : jsstring :=
  JSON_stringify
    (error_message (-32002) "Authentication failed"
       [ (lit "reason", JString (lit "Invalid token")) ]).

Definition authentication_timeout : jsstring :=
  JSON_stringify
    (error_message (-32003) "Authentication timeout"
       [ (lit "timeout", JString (lit "10 seconds")) ]).

(** A property whose value is [undefined] is not serialized. *)
Definition authenticated (payload : JWTPayload) : jsstring :=
  JSON_stringify
    (JObject [ (lit "jsonrpc", JString (lit "2.0"));
               (lit "result",
                JObject ([ (lit "authenticated", JBool true) ]
                         ++ match user payload with
                            | Some u => [ (lit "user", JString u) ]
                            | None => []
                            end
                         ++ [ (lit "roles", strings (roles_or_empty payload)) ])) ]).

(** What the handlers see of their surroundings when a chunk arrives. *)
Record Env := {
  stdin_writable : bool;    (* [proc.stdin && !proc.stdin.destroyed] *)
  write_throws : bool       (* [socket.write] of a response throws *)
}.

Section Handlers.

(** [verifyJWTWithPayload] wraps the [jsonwebtoken] library; the result is
    the payload where [valid && payload] holds. *)
Variable verifyJWTWithPayload : jsstring -> jsstring -> option JWTPayload.

Variable options : Options.

(** The configuration the server loaded at startup. *)
Variable config : option PermissionsConfig.

Definition secret : jsstring := default [] (jwtSecret options).

(** The outcome of the credential check, shared by both transports:
    the messages for the peer and the filter of the session, if any. *)
Definition authenticate (token : jsstring)
  : jsstring * option (Buffer -> FilterResult) :=
  match verifyJWTWithPayload token secret with
  | Some payload =>
    match requiredRoles options with
    | Some required =>
      if negb (hasRequiredRoles (roles payload) required) then
        (insufficient_roles required payload, None)
      else (authenticated payload,
            Some (createMessageFilter (roles_or_empty payload) config))
    | None => (authenticated payload,
               Some (createMessageFilter (roles_or_empty payload) config))
    end
  | None => (authentication_failed, None)
  end.

Definition forward (env : Env) (data : Buffer) : list Effect :=
  if stdin_writable env then [WriteStdin data] else [].

(** *** TCP *)

Inductive TcpState :=
| TcpAwaitToken
    (* the [once("data")] listener waits for the token *)
| TcpFiltering (messageFilter : Buffer -> FilterResult)
    (* the [on("data")] listener of an authenticated client *)
| TcpForwarding
    (* the [on('data')] listener of a server without a secret *)
| TcpEnded
    (* [socket.end()] was called and no data listener is left *)
| TcpDestroyed.

Record TcpSession := {
  tcp_state : TcpState;
  idle_deadline : Z    (* when the idle timeout set by [socket.setTimeout(300000)] fires *)
}.

Definition tcp_connection (now : Z) : TcpSession :=
  {| tcp_state := if optional_string_truthy (jwtSecret options)
                  then TcpAwaitToken else TcpForwarding;
     idle_deadline := now + 300000 |}.

(** The listener for ['data'] in each state: the next state and the effects. *)
Definition tcp_data (env : Env) (st : TcpState) (data : Buffer) : TcpState * list Effect :=
  match st with
  | TcpAwaitToken =>
    match authenticate (trim (Buffer_toString data)) with
    | (reply, Some messageFilter) => (TcpFiltering messageFilter, [Send (reply ++ [10%N])])
    | (reply, None) => (TcpEnded, [Send (reply ++ [10%N]); EndSocket])
    end
  | TcpFiltering messageFilter =>
    let result := messageFilter data in
    match allowed result, filteredData result with
    | true, Some filtered => (st, forward env filtered)
    | _, _ =>
      match response result with
      | Some r =>
        if string_truthy r then
          if write_throws env then (TcpDestroyed, [DestroySocket])
          else (st, [Send r])
        else (st, [])
      | None => (st, [])
      end
    end
  | TcpForwarding => (st, forward env data)
  | TcpEnded => (st, [])
  | TcpDestroyed => (st, [])
  end.

(** The listener for ['timeout']. *)
Definition tcp_expire (s : TcpSession) (now : Z) : TcpSession * list (Z * Effect) :=
  match tcp_state s with
  | TcpDestroyed => (s, [])
  | _ =>
    if idle_deadline s <=? now then
      ({| tcp_state := TcpDestroyed; idle_deadline := idle_deadline s |},
       [(idle_deadline s, DestroySocket)])
    else (s, [])
  end.

Definition at_time (now : Z) (effects : list Effect) : list (Z * Effect) :=
  (fun e => (now, e)) <$> effects.

(** A chunk arrives at [now]: the idle timeout fires first where it is due,
    every chunk that is delivered restarts it. *)
Definition tcp_arrival (s : TcpSession) (now : Z) (env : Env) (data : Buffer)
  : TcpSession * list (Z * Effect) :=
  let '(s1, out1) := tcp_expire s now in
  match tcp_state s1 with
  | TcpDestroyed => (s1, out1)
  | st =>
    let '(st', out2) := tcp_data env st data in
    ({| tcp_state := st'; idle_deadline := now + 300000 |}, out1 ++ at_time now out2)
  end.

(** The connection from [s] on: the chunks arrive in the order of the
    list, and the clock then runs to [until]. *)
Fixpoint tcp_run (s : TcpSession) (arrivals : list (Z * Env * Buffer)) (until : Z)
  : TcpSession * list (Z * Effect) :=
  match arrivals with
  | [] => tcp_expire s until
  | (now, env, data) :: rest =>
    let '(s1, out1) := tcp_arrival s now env data in
    let '(s2, out2) := tcp_run s1 rest until in
    (s2, out1 ++ out2)
  end.

(** *** WebSocket *)

Inductive WsState :=
| WsAwaitToken
    (* [isAuthenticated] is false *)
| WsFiltering (messageFilter : Buffer -> FilterResult)
    (* [isAuthenticated] is true and [messageFilter] is set *)
| WsForwarding.
    (* the listeners of a server without a secret *)

Record WsSession := {
  ws_state : WsState;
  authTimeout : option Z;   (* when the pending authentication timer fires *)
  ws_open : bool            (* [ws.readyState === WebSocket.OPEN] *)
}.

Definition ws_connection (now : Z) : WsSession :=
  if optional_string_truthy (jwtSecret options) then
    {| ws_state := WsAwaitToken; authTimeout := Some (now + 10000); ws_open := true |}
  else {| ws_state := WsForwarding; authTimeout := None; ws_open := true |}.

(** The listener for ["message"]. *)
Definition ws_message (env : Env) (s : WsSession) (msg : Buffer)
  : WsSession * list Effect :=
  match ws_state s with
  | WsAwaitToken =>
    match authenticate (trim (Buffer_toString msg)) with
    | (reply, Some messageFilter) =>
      ({| ws_state := WsFiltering messageFilter; authTimeout := None; ws_open := ws_open s |},
       [Send reply])
    | (reply, None) =>
      ({| ws_state := WsAwaitToken; authTimeout := None; ws_open := false |},
       [Send reply; CloseSocket])
    end
  | WsFiltering messageFilter =>
    let data := Buffer_from (Buffer_toString msg) in
    let result := messageFilter data in
    match allowed result, filteredData result with
    | true, Some filtered => (s, forward env filtered)
    | _, _ =>
      match response result with
      | Some r =>
        if string_truthy r then
          if ws_open s then (s, [Send r]) else (s, [])
        else (s, [])
      | None => (s, [])
      end
    end
  | WsForwarding => (s, forward env msg)
  end.

(** The callback of the authentication timer. *)
Definition ws_expire (s : WsSession) (now : Z) : WsSession * list (Z * Effect) :=
  match authTimeout s with
  | Some deadline =>
    if deadline <=? now then
      ({| ws_state := ws_state s; authTimeout := None; ws_open := false |},
       [(deadline, Send authentication_timeout); (deadline, CloseSocket)])
    else (s, [])
  | None => (s, [])
  end.

(** A message arrives at [now]; a closed socket delivers none. *)
Definition ws_arrival (s : WsSession) (now : Z) (env : Env) (msg : Buffer)
  : WsSession * list (Z * Effect) :=
  let '(s1, out1) := ws_expire s now in
  if ws_open s1 then
    let '(s2, out2) := ws_message env s1 msg in
    (s2, out1 ++ at_time now out2)
  else (s1, out1).

Fixpoint ws_run (s : WsSession) (arrivals : list (Z * Env * Buffer)) (until : Z)
  : WsSession * list (Z * Effect) :=
  match arrivals with
  | [] => ws_expire s until
  | (now, env, msg) :: rest =>
    let '(s1, out1) := ws_arrival s now env msg in
    let '(s2, out2) := ws_run s1 rest until in
    (s2, out1 ++ out2)
  end.

(** *** Chunks one after the other

    The listeners run to completion in the order in which the chunks
    arrive. *)
Fixpoint tcp_deliver (st : TcpState) (arrivals : list (Env * Buffer))
  : TcpState * list Effect :=
  match arrivals with
  | [] => (st, [])
  | (env, data) :: rest =>
    let '(st1, out1) := tcp_data env st data in
    let '(st2, out2) := tcp_deliver st1 rest in
    (st2, out1 ++ out2)
  end.

Fixpoint ws_deliver (s : WsSession) (arrivals : list (Env * Buffer))
  : WsSession * list Effect :=
  match arrivals with
  | [] => (s, [])
  | (env, msg) :: rest =>
    let '(s1, out1) := ws_message env s msg in
    let '(s2, out2) := ws_deliver s1 rest in
    (s2, out1 ++ out2)
  end.

End Handlers.

End Server.

(** * The client of [src/mcp-remote.ts] *)

Module Client.
Import JS Permissions.

(** [v.result] *)
Definition result (v : JSValue) : option JSValue := get_property v (lit "result").

(** [authResult.result && authResult.result.authenticated], as the
    condition of an [if]. *)
Definition authenticated_result (authResult : JSValue) : bool :=
  match result authResult with
  | Some r => ToBoolean r && truthy (get_property r (lit "authenticated"))
  | None => false
  end.

(** What the client sends first when it has a token:
    [socket.write(options.jwtToken + "\n")] over TCP and
    [ws.send(options.jwtToken)] over WebSocket. *)
Definition tcp_hello (jwtToken : jsstring) : jsstring := jwtToken ++ [10].
Definition ws_hello (jwtToken : jsstring) : jsstring := jwtToken.

(** The listener for the reply to the token, [once("data")] over TCP and
    [once("message")] over WebSocket: [true] where the client takes the
    connection for authenticated, [false] where it ends or closes it,
    which it also does when [JSON.parse] throws. *)
Definition reply_accepted (data : Buffer) : bool :=
  let response := trim (Buffer_toString data) in
  match JSON_parse response with
  | Some authResult => authenticated_result authResult
  | None => false
  end.

(** [parsedMessage.jsonrpc === "2.0" && parsedMessage.result &&
    parsedMessage.result.authenticated !== undefined] *)
Definition is_authentication_response (parsedMessage : JSValue) : bool :=
  is_version_2 parsedMessage
  && match result parsedMessage with
     | Some r =>
       ToBoolean r
       && match get_property r (lit "authenticated") with
          | Some _ => true
          | None => false
          end
     | None => false
     end.

(** A line is skipped where it parses as an authentication response; a
    line that does not parse is kept. *)
Definition skipped (line : jsstring) : bool :=
  match JSON_parse line with
  | Some parsedMessage => is_authentication_response parsedMessage
  | None => false
  end.

(** The loop over the lines of a chunk, with [filteredOutput] so far. *)
Fixpoint filter_lines (lines : list jsstring) (filteredOutput : jsstring) : jsstring :=
  match lines with
  | [] => filteredOutput
  | line :: rest =>
    if negb (string_truthy (trim line)) then filter_lines rest filteredOutput
    else if skipped line then filter_lines rest filteredOutput
    else filter_lines rest (filteredOutput ++ line ++ [10])
  end.

(** The listener for ["data"] of the TCP client: what it writes to the
    standard output, [None] where it writes nothing. *)
Definition tcp_stdout (data : Buffer) : option jsstring :=
  let message := Buffer_toString data in
  let filteredOutput := filter_lines (split_newline (trim message)) [] in
  if string_truthy filteredOutput then Some filteredOutput else None.

(** The listener for ["message"] of the WebSocket client. *)
Definition ws_stdout (msg : Buffer) : option jsstring :=
  let message := Buffer_toString msg in
  if skipped message then None else Some message.

(** ** One TCP connection of the client

    The listeners [connectTcp] installs, as long as the connection is
    neither closed nor in error. *)

Record TcpClient := {
  isConnected : bool;
  awaitingReply : bool;               (* the [once("data")] listener is installed *)
  messageQueue : list jsstring
}.

Inductive Event :=
| Connect                      (* ["connect"] of the socket *)
| SocketData (data : Buffer)   (* ["data"] of the socket *)
| StdinData (data : Buffer).   (* ['data'] of [process.stdin] *)

Inductive Action :=
| SocketWrite (data : Buffer)        (* [socket.write] of a buffer *)
| SocketWriteText (text : jsstring)  (* [socket.write] of a string *)
| SocketEnd                          (* [socket.end()] *)
| StdoutWrite (text : jsstring).     (* [process.stdout.write] *)

(** The state after [connectTcp()] has returned. *)
Definition connectTcp : TcpClient :=
  {| isConnected := false; awaitingReply := false; messageQueue := [] |}.

(** The loop that sends the queued messages; an empty one is skipped. *)
Definition send_queued (messageQueue : list jsstring) : list Action :=
  SocketWriteText <$> List.filter string_truthy messageQueue.

Definition write_stdout (data : Buffer) : list Action :=
  match tcp_stdout data with
  | Some filteredOutput => [StdoutWrite filteredOutput]
  | None => []
  end.

Section TcpClient.

(** [options.jwtToken] *)
Variable jwtToken : option jsstring.

(** The listeners that run at an event, in the order in which they were
    installed: for ["data"] of the socket the one that writes to the
    standard output, then the one that waits for the reply. *)
Definition tcp_event (c : TcpClient) (e : Event) : TcpClient * list Action :=
  match e with
  | Connect =>
    match jwtToken with
    | Some token =>
      if string_truthy token then
        ({| isConnected := isConnected c; awaitingReply := true;
            messageQueue := messageQueue c |},
         [SocketWriteText (tcp_hello token)])
      else
        ({| isConnected := true; awaitingReply := awaitingReply c; messageQueue := [] |},
         send_queued (messageQueue c))
    | None =>
      ({| isConnected := true; awaitingReply := awaitingReply c; messageQueue := [] |},
       send_queued (messageQueue c))
    end
  | SocketData data =>
    if awaitingReply c then
      if reply_accepted data then
        ({| isConnected := true; awaitingReply := false; messageQueue := [] |},
         write_stdout data ++ send_queued (messageQueue c))
      else
        ({| isConnected := isConnected c; awaitingReply := false;
            messageQueue := messageQueue c |},
         write_stdout data ++ [SocketEnd])
    else (c, write_stdout data)
  | StdinData data =>
    if isConnected c then (c, [SocketWrite data])
    else
      ({| isConnected := false; awaitingReply := awaitingReply c;
          messageQueue := messageQueue c ++ [Buffer_toString data] |}, [])
  end.

Fixpoint tcp_events (c : TcpClient) (events : list Event) : TcpClient * list Action :=
  match events with
  | [] => (c, [])
  | e :: rest =>
    let '(c1, out1) := tcp_event c e in
    let '(c2, out2) := tcp_events c1 rest in
    (c2, out1 ++ out2)
  end.

End TcpClient.

End Client.

(** * The command line: [parseArgs] *)

Module CLI.
Import JS.

Inductive Mode := server | client.

(** The [Options] as [parseArgs] fills them in. *)
Record Options := {
  mode : Mode;
  protocol : jsstring;                     (* [args[1]], cast without a check *)
  port : number;
  host : option jsstring;
  command : option jsstring;               (* [undefined] where nothing follows [--] *)
  args : list jsstring;
  debug : bool;
  autoReconnect : bool;
  maxReconnectAttempts : number;
  reconnectDelay : number;
  jwtSecret : option jsstring;
  jwtToken : option jsstring;
  requiredRoles : option (list jsstring);
  permissionsConfig : option jsstring
}.

(** What becomes of a call of [parseArgs]. *)
Inductive Outcome :=
| HandleGenerateSecret (args : list jsstring)
    (* [handleGenerateSecret(args)], which ends the process *)
| HandleGenerateToken (args : list jsstring)
    (* [handleGenerateToken(args)], which ends the process *)
| GeneratePermissions
    (* the object [{ mode: "generate-permissions" }] is returned *)
| Exit (code : Z)
    (* the usage is printed and [process.exit(code)] called *)
| TypeError
    (* [split] is called on [undefined] *)
| Run (options : Options).

(** [args.indexOf(x)]; [None] is -1. *)
Fixpoint indexOf (args : list jsstring) (x : jsstring) : option nat :=
  match args with
  | [] => None
  | a :: args' => if jsstring_eqb a x then Some 0%nat else S <$> indexOf args' x
  end.

(** [String.prototype.split(",")] *)
Fixpoint split_comma (s : jsstring) : list jsstring :=
  match s with
  | [] => [[]]
  | c :: s' =>
    if c =? 44 then [] :: split_comma s'
    else match split_comma s' with
         | l :: ls => (c :: l) :: ls
         | [] => [[c]]
         end
  end.

Section ParseArgs.

(** [parseInt(s, 10)], of a string or of [undefined]. *)
Variable parseInt : option jsstring -> number.

(** [process.env.DEBUG] *)
Variable DEBUG : option jsstring.

(** [index !== -1 ? args[index + 1] : undefined] *)
Definition value_after (args : list jsstring) (flag : string) : option jsstring :=
  match indexOf args (lit flag) with
  | Some index => args !! S index
  | None => None
  end.

(** [index !== -1 ? parseInt(args[index + 1], 10) : otherwise] *)
Definition number_after (args : list jsstring) (flag : string) (otherwise : Z) : number :=
  match indexOf args (lit flag) with
  | Some index => parseInt (args !! S index)
  | None => number_of_Z otherwise
  end.

Definition is_flag_set (args : list jsstring) (flag : string) : bool :=
  match indexOf args (lit flag) with
  | Some _ => true
  | None => false
  end.

(** The [Options] that are returned, but for the required roles. Where
    an index is -1, what is read is [args[0]]; the usage is printed
    before this can happen. *)
Definition options_of (mode : Mode) (protocol : jsstring) (args : list jsstring)
    (requiredRoles : option (list jsstring)) : Options :=
  {| mode := mode;
     protocol := protocol;
     port := match indexOf args (lit "--port") with
             | Some portIndex => parseInt (args !! S portIndex)
             | None => parseInt (args !! 0%nat)
             end;
     host := value_after args "--host";
     command := match mode with
                | server =>
                  match indexOf args (lit "--") with
                  | Some sepIndex => args !! S sepIndex
                  | None => args !! 0%nat
                  end
                | client => Some []
                end;
     CLI.args := match mode with
                 | server =>
                   match indexOf args (lit "--") with
                   | Some sepIndex => drop (S (S sepIndex)) args
                   | None => drop 1 args
                   end
                 | client => []
                 end;
     debug := match DEBUG with
              | Some v => jsstring_eqb v (lit "true")
              | None => false
              end;
     autoReconnect := is_flag_set args "--auto-reconnect";
     maxReconnectAttempts := number_after args "--max-attempts" 5;
     reconnectDelay := number_after args "--reconnect-delay" 1000;
     jwtSecret := value_after args "--jwt-secret";
     jwtToken := value_after args "--jwt-token";
     requiredRoles := requiredRoles;
     permissionsConfig := value_after args "--permissions-config" |}.

(** [parseArgs], of [process.argv.slice(2)]. *)
Definition parseArgs (args : list jsstring) : Outcome :=
  match args with
  | [] => Exit 1
  | arg0 :: rest =>
    if jsstring_eqb arg0 (lit "generate-secret") then HandleGenerateSecret args
    else if jsstring_eqb arg0 (lit "generate-token") then HandleGenerateToken args
    else if jsstring_eqb arg0 (lit "generate-permissions") then GeneratePermissions
    else
      match rest,
            (if jsstring_eqb arg0 (lit "server") then Some server
             else if jsstring_eqb arg0 (lit "client") then Some client
             else None) with
      | protocol :: _, Some mode =>
        if negb (is_flag_set args "--port")
           || (match mode with server => true | client => false end
               && negb (is_flag_set args "--"))
        then Exit 1
        else
          match indexOf args (lit "--require-roles") with
          | Some requiredRolesIndex =>
            match args !! S requiredRolesIndex with
            | Some roles => Run (options_of mode protocol args (Some (split_comma roles)))
            | None => TypeError
            end
          | None => Run (options_of mode protocol args None)
          end
      | _, _ => Exit 1
      end
  end.

End ParseArgs.

End CLI.

(** * The utilities of [src/types.ts] *)

Module Utils.

Local Open Scope Z_scope.

(** [Math.min(initialDelay * Math.pow(2, attempt), 30000)], for an
    attempt that is a natural number, as the counter of the client is,
    and a delay that is a positive integer or left out. [Math.pow(2,
    attempt)] is a power of two, and the product of an integer Number
    with it is exact where it is finite; where it is not it is
    [Infinity], of which the minimum with 30000 is 30000, as it is of
    every integer above. *)
Definition calculateBackoffDelay (attempt : N) (initialDelay : option positive) : Z :=
  Z.min (Zpos (default 1000%positive initialDelay) * 2 ^ Z.of_N attempt) 30000.

End Utils.

(** * [handleGeneratePermissions] *)

Module Generator.
Import JS Permissions.

(** The configuration the command writes to the file. The methods it has
    discovered are printed and are not part of it. *)
Definition permissionsConfig : PermissionsConfig :=
  {| permissions :=
       {[ lit "admin" := {| allowedMethods := [lit "*"]; blockedMethods := [] |} ]} |}.

End Generator.

(** * Reference definitions and the configuration of the scenarios *)

Module Reference.
Import JS Permissions.




(** The configuration of the scenarios of section 8. *)
Definition section8 : PermissionsConfig :=
  {| permissions :=
       <[ lit "admin" := {| allowedMethods := [lit "*"]; blockedMethods := [] |} ]>
       (<[ lit "user" := {| allowedMethods := [lit "tools/list"];
                            blockedMethods := [lit "tools/call"] |} ]> ∅) |}.

(** The request of scenario 7 and the message it holds. *)
Definition tools_call_chunk : Buffer :=
  json_buf "{`jsonrpc`:`2.0`,`id`:1,`method`:`tools/call`,`params`:{}}".







(** A chunk of three lines: one that is not JSON, a request for
    [tools/list], a request for [tools/call]. *)
Definition tools_list_line : string :=
  "{`jsonrpc`:`2.0`,`id`:2,`method`:`tools/list`}".

Definition tools_call_line : string :=
  "{`jsonrpc`:`2.0`,`id`:3,`method`:`tools/call`}".

Definition three_lines_chunk : Buffer :=
  buf "not json" ++ [Byte.x0a] ++ json_buf tools_list_line ++ [Byte.x0a] ++ json_buf tools_call_line.

Definition tools_list_message : MCPMessage :=
  JObject [ (lit "jsonrpc", JString (lit "2.0"));
            (lit "id", JNumber (number_of_Z 2));
            (lit "method", JString (lit "tools/list")) ].

(** A response, which has no [method]. *)
Definition result_chunk : Buffer := json_buf "{`jsonrpc`:`2.0`,`id`:1,`result`:{}}".

Definition result_message : MCPMessage :=
  JObject [ (lit "jsonrpc", JString (lit "2.0"));
            (lit "id", JNumber (number_of_Z 1));
            (lit "result", JObject []) ].

(** Requests for the blocked [tools/call] that are not framed as one
    object of version 2.0 on a line: one of version 1.0, and a batch. *)
Definition version_1_chunk : Buffer :=
  json_buf "{`jsonrpc`:`1.0`,`id`:1,`method`:`tools/call`}".

Definition batch_chunk : Buffer :=
  json_buf "[{`jsonrpc`:`2.0`,`id`:1,`method`:`tools/call`}]".

(** The response section 4.2 of the specification describes: the [id]
    property is the supplied [id], and [null] when there is none. *)
Definition createErrorResponse_spec (id : option JSValue) (reason : jsstring) : jsstring :=
  JSON_stringify (error_object (default JNull id) reason) ++ [10].

(** A request for [tools/call] whose [id] is 0. *)
Definition zero_id_chunk : Buffer :=
  json_buf "{`jsonrpc`:`2.0`,`id`:0,`method`:`tools/call`}".

(** A server that asks for a token, and one started with a path to a
    permissions file. *)
Definition tcp_with_secret : Server.Options :=
  {| Server.protocol := Server.tcp;
     Server.jwtSecret := Some (lit "secret");
     Server.requiredRoles := None;
     Server.permissionsConfig := Some (lit "permissions.json") |}.

Definition ws_with_secret : Server.Options :=
  {| Server.protocol := Server.ws;
     Server.jwtSecret := Some (lit "secret");
     Server.requiredRoles := None;
     Server.permissionsConfig := Some (lit "permissions.json") |}.

(** A file system without the file, and one in which it is not JSON. *)
Definition no_file : FileSystem := fun _ => None.

Definition broken_file : FileSystem := fun _ => Some (json "{ `permissions`: ").

(** A verifier that accepts no token. *)
Definition reject_all : jsstring -> jsstring -> option Server.JWTPayload :=
  fun _ _ => None.

Definition quiet : Server.Env :=
  {| Server.stdin_writable := true; Server.write_throws := false |}.

(** The filter of a session of the role [user] under the configuration of
    section 8, and a WebSocket session that has it. *)
Definition user_filter : Buffer -> FilterResult :=
  createMessageFilter [lit "user"] (Some section8).

Definition user_session : Server.WsSession :=
  {| Server.ws_state := Server.WsFiltering user_filter;
     Server.authTimeout := None;
     Server.ws_open := true |}.

End Reference.

(** * Tools for the proofs about the runtime *)

Module Tools.
Import JS.

(** Induction on a value, with the property known of the elements of an
    array and of the values of the properties of an object. *)
Fixpoint JSValue_induction (P : JSValue -> Prop)
    (Hnull : P JNull) (Hbool : forall b, P (JBool b))
    (Hnumber : forall x, P (JNumber x)) (Hstring : forall s, P (JString s))
    (Harray : forall elems, Forall P elems -> P (JArray elems))
    (Hobject : forall props, Forall (fun kv => P (snd kv)) props -> P (JObject props))
    (v : JSValue) : P v :=
  match v with
  | JNull => Hnull
  | JBool b => Hbool b
  | JNumber x => Hnumber x
  | JString s => Hstring s
  | JArray elems =>
    Harray elems
      ((fix each (l : list JSValue) : Forall P l :=
          match l with
          | [] => @List.Forall_nil _ P
          | e :: l' =>
            @List.Forall_cons _ P e l'
              (JSValue_induction P Hnull Hbool Hnumber Hstring Harray Hobject e)
              (each l')
          end) elems)
  | JObject props =>
    Hobject props
      ((fix each (l : list (jsstring * JSValue)) : Forall (fun kv => P (snd kv)) l :=
          match l with
          | [] => @List.Forall_nil _ (fun kv => P (snd kv))
          | kv :: l' =>
            @List.Forall_cons _ (fun kv => P (snd kv)) kv l'
              (JSValue_induction P Hnull Hbool Hnumber Hstring Harray Hobject (snd kv))
              (each l')
          end) props)
  end.

(** The parser run over a piece of text that is not the end of it. *)
Fixpoint steps (st : pstate) (s : jsstring) : option pstate :=
  match s with
  | [] => Some st
  | c :: s' =>
    match step st c with
    | Some st' => steps st' s'
    | None => None
    end
  end.

(** The parser inside a string. *)
Definition in_string (stk : list frame) (iskey : bool) (acc : jsstring) : pstate :=
  {| stack := stk; pmode := MString iskey acc; result := None |}.

(** A code unit that is not a control character. *)
Definition printable (c : N) : Prop := 32 <= c.

(** The parser where a value begins. *)
Definition value_state (stk : list frame) (b : bool) (r : option JSValue) : pstate :=
  {| stack := stk; pmode := MValue b; result := r |}.

(** What may follow a value inside a text that [JSON.stringify] wrote, or
    at the end of a line. *)
Definition delimiter (c : N) : Prop := c = 44 ∨ c = 93 ∨ c = 125 ∨ c = 10.

Definition ends_value (suffix : jsstring) : Prop :=
  match suffix with
  | [] => True
  | c :: _ => delimiter c
  end.

(** A finite number whose text the parser reads as a number that has this
    value. *)
Definition number_readable (x : number) : Prop :=
  number_finite x = true
  ∧ ∃ s a,
      num_accepting s = true ∧ num_value a = JNumber x
      ∧ ∀ stk b r,
          steps (value_state stk b r) (Number_toString x)
          = Some {| stack := stk; pmode := MNumber s a; result := None |}.

(** The properties of a list, defined one after the other as the parser
    defines the members of an object. *)
Definition define_all (done props : list (jsstring * JSValue))
  : list (jsstring * JSValue) :=
  fold_left (fun acc kv => obj_set acc (fst kv) (snd kv)) props done.

(** A value [JSON.parse] reads back from the text [JSON.stringify]
    writes for it: its numbers are readable, and the properties of its
    objects are in the order in which they would be enumerated. *)
Fixpoint readable (v : JSValue) : Prop :=
  match v with
  | JNull | JBool _ | JString _ => True
  | JNumber x => number_readable x
  | JArray elems =>
    (fix each (l : list JSValue) : Prop :=
       match l with
       | [] => True
       | e :: l' => readable e ∧ each l'
       end) elems
  | JObject props =>
    define_all [] props = props
    ∧ (fix each (l : list (jsstring * JSValue)) : Prop :=
         match l with
         | [] => True
         | kv :: l' => readable (snd kv) ∧ each l'
         end) props
  end.

(** The text of one member of an object. *)
Definition member (kv : jsstring * JSValue) : jsstring :=
  quote (fst kv) ++ 58 :: JSON_stringify (snd kv).

(** The read-back of one value: the parser, where a value begins, reads
    the text of the value and is where it is after that value. *)
Definition reads_back (v : JSValue) : Prop :=
  readable v ->
  forall stk b r suffix,
    ends_value suffix ->
    run (value_state stk b r) (JSON_stringify v ++ suffix) = run (complete v stk) suffix.

(** A string of UTF-16 code units in which every surrogate is one of a
    pair, the strings UTF-8 has an encoding for. *)
Fixpoint well_formed (s : jsstring) : bool :=
  match s with
  | [] => true
  | c :: s' =>
    if is_high_surrogate c then
      match s' with
      | d :: s'' => is_low_surrogate d && well_formed s''
      | [] => false
      end
    else negb (is_low_surrogate c) && (c <? 0x10000) && well_formed s'
  end.

End Tools.

(** * The parties of the examples *)

Module Examples.
Import JS Permissions.

(** A user of the role [user], and a verifier that accepts one token,
    hers, under the secret of the scenarios. *)
Definition alice : Server.JWTPayload :=
  {| Server.user := Some (lit "alice"); Server.roles := Some [lit "user"] |}.

Definition accept_alice : jsstring -> jsstring -> option Server.JWTPayload :=
  fun token secret =>
    if jsstring_eqb token (lit "token-of-alice") && jsstring_eqb secret (lit "secret")
    then Some alice else None.

(** The chunk a client sends first: the token and a line feed. *)
Definition alice_hello : Buffer := buf "token-of-alice" ++ [Byte.x0a].

(** A server that requires the role [admin]. *)
Definition admins_only : Server.Options :=
  {| Server.protocol := Server.tcp;
     Server.jwtSecret := Some (lit "secret");
     Server.requiredRoles := Some [lit "admin"];
     Server.permissionsConfig := Some (lit "permissions.json") |}.

(** A request for [tools/list] with an accented letter and a character
    outside the basic plane, a pair of surrogates, among its parameters. *)
Definition accented_request : jsstring :=
  json "{`jsonrpc`:`2.0`,`id`:2,`method`:`tools/list`,`params`:{`q`:`caf"
  ++ [0xE9; 0x20; 0xD83D; 0xDE00] ++ json "`}}".

(** A command line for a server whose command has an option of its own
    that is named like one of the proxy, and a [parseInt] that knows the
    port of it. *)
Definition server_line : list jsstring :=
  [lit "server"; lit "tcp"; lit "--port"; lit "8080"; lit "--require-roles";
   lit "admin,ops"; lit "--"; lit "node"; lit "mcp.js"; lit "--jwt-secret"; lit "x"].

Definition parseInt_8080 : option jsstring -> number :=
  fun s => if bool_decide (s = Some (lit "8080")) then number_of_Z 8080 else S754_nan.

(** Two chunks of the standard input of a client, the first of them with
    an accented letter. *)
Definition first_input : Buffer := Buffer_from (accented_request ++ [10]).
Definition second_input : Buffer := Reference.tools_call_chunk.

(** A server that was started without a secret. *)
Definition open_server : Server.Options :=
  {| Server.protocol := Server.tcp;
     Server.jwtSecret := None;
     Server.requiredRoles := None;
     Server.permissionsConfig := Some (lit "permissions.json") |}.

(** The identifier 7, and a text with quotation marks and a line feed
    in it. *)
Definition seven : JSValue := JNumber (number_of_Z 7).

Definition quoted_text : jsstring := json "no `tools/call`" ++ [10] ++ lit "for you".

(** What the server sends to alice, and to one it turns away, as the
    bytes of a chunk. *)
Definition welcome_line : Buffer := Buffer_from (Server.authenticated alice ++ [10]).
Definition welcome_message : Buffer := Buffer_from (Server.authenticated alice).
Definition failure_line : Buffer := Buffer_from (Server.authentication_failed ++ [10]).
Definition failure_message : Buffer := Buffer_from Server.authentication_failed.

Definition denial_chunk : Buffer :=
  Buffer_from (createErrorResponse (Some seven) quoted_text).

End Examples.

(** * Properties *)

Import JS Permissions Auth Reference Tools Examples.

(** ** The runtime *)

Section Runtime.

Lemma trim_start_nil (s : jsstring) :
  trim_start s = [] → Forall (fun c => is_trim_space c = true) s.
Proof.
  induction s as [|c s IH]; simpl; [constructor|].
  destruct (is_trim_space c) eqn:Hc; [|discriminate].
  intros H. constructor; auto.
Qed.

Lemma trim_nil (s : jsstring) :
  trim s = [] → Forall (fun c => is_trim_space c = true) s.
Proof.
  unfold trim. intros H.
  assert (Hr : trim_start (rev (trim_start s)) = []).
  { rewrite <- (rev_involutive (trim_start (rev (trim_start s)))), H. reflexivity. }
  apply trim_start_nil in Hr.
  assert (Ht : Forall (fun c => is_trim_space c = true) (trim_start s)).
  { rewrite <- (rev_involutive (trim_start s)). apply List.Forall_rev, Hr. }
  apply trim_start_nil.
  destruct (trim_start s) as [|c t] eqn:E; [reflexivity|].
  exfalso. inversion Ht as [|? ? Hc _]; subst.
  clear -E Hc. induction s as [|d s IH]; simpl in E; [discriminate|].
  destruct (is_trim_space d) eqn:Hd; [auto|]. congruence.
Qed.

(** White space does not begin a value. *)
Lemma step_trim_space (c : N) :
  is_trim_space c = true →
  step start_state c = Some start_state ∨ step start_state c = None.
Proof.
  intros H.
  assert (Hc : c = 9 ∨ c = 10 ∨ c = 11 ∨ c = 12 ∨ c = 13 ∨ c = 32 ∨ 160 <= c).
  { unfold is_trim_space in H.
    repeat (rewrite orb_true_iff in H || rewrite andb_true_iff in H).
    rewrite ?N.eqb_eq, ?N.leb_le in H. lia. }
  destruct Hc as [->|[->|[->|[->|[->|[->|Hc]]]]]];
    try (left; reflexivity); try (right; reflexivity).
  right. unfold step, start_state, step_value, is_json_space, is_digit. simpl.
  repeat match goal with
         | |- context [N.eqb c ?k] =>
           destruct (N.eqb_spec c k) as [?|_]; [lia|]
         end.
  destruct (N.leb_spec c 57) as [?|_]; [lia|].
  rewrite andb_false_r. reflexivity.
Qed.

(** A text of white space only is not JSON. *)
Lemma JSON_parse_spaces (s : jsstring) :
  Forall (fun c => is_trim_space c = true) s → JSON_parse s = None.
Proof.
  unfold JSON_parse.
  induction 1 as [|c s Hc _ IH]; [reflexivity|].
  simpl. destruct (step_trim_space c Hc) as [-> | ->]; [exact IH | reflexivity].
Qed.

(** The line a message was parsed from is kept by the filter of
    [parseMCPMessage]. *)
Lemma JSON_parse_trim (line : jsstring) (v : JSValue) :
  JSON_parse line = Some v → string_truthy (trim line) = true.
Proof.
  intros H. destruct (trim line) eqn:E; [|reflexivity].
  apply trim_nil, JSON_parse_spaces in E. congruence.
Qed.

End Runtime.

(** ** [parseMCPMessage] *)

Section ParseMCPMessage.

Lemma first_message_filter (lines : list jsstring) :
  first_message (List.filter (fun line => string_truthy (trim line)) lines)
  = first_message lines.
Proof.
  induction lines as [|line rest IH]; [reflexivity|].
  simpl. destruct (string_truthy (trim line)) eqn:E; simpl; rewrite IH.
  - reflexivity.
  - destruct (JSON_parse line) as [v|] eqn:P; [|reflexivity].
    apply JSON_parse_trim in P. congruence.
Qed.

(** Dropping the blank lines changes nothing: [parseMCPMessage] returns
    the first line, in the order of the chunk, that holds a message of
    version 2.0. *)
Lemma parseMCPMessage_first (data : jsstring) :
  parseMCPMessage data = first_message (split_newline data).
Proof. apply first_message_filter. Qed.



Lemma is_version_2_object (message : MCPMessage) :
  is_version_2 message = true →
  ∃ props, message = JObject props
           ∧ obj_get props (lit "jsonrpc") = Some (JString (lit "2.0")).
Proof.
  unfold is_version_2, jsonrpc, get_property.
  destruct message as [| | | | |props]; try discriminate.
  destruct (obj_get props (lit "jsonrpc")) as [[| | |s| |]|] eqn:E;
    try discriminate.
  unfold jsstring_eqb. intros H. apply bool_decide_eq_true in H. subst s.
  eauto.
Qed.

Lemma first_message_version (lines : list jsstring) (message : MCPMessage) :
  first_message lines = Some message →
  ∃ line, line ∈ lines ∧ JSON_parse line = Some message
          ∧ is_version_2 message = true.
Proof.
  induction lines as [|l rest IH]; [discriminate|].
  simpl. destruct (JSON_parse l) as [v|] eqn:P.
  - destruct (is_version_2 v) eqn:V.
    + intros [= <-]. exists l. split; [left|auto].
    + intros H. destruct (IH H) as (line & Hin & ?). exists line. split; [right|]; auto.
  - intros H. destruct (IH H) as (line & Hin & ?). exists line. split; [right|]; auto.
Qed.

End ParseMCPMessage.

(** ** [isMethodAllowed] *)

Section IsMethodAllowed.

#[local] Arguments includes : simpl never.

Lemma includes_elem (l : list jsstring) (m : jsstring) :
  includes l (JString m) = true ↔ m ∈ l.
Proof.
  unfold includes. rewrite existsb_exists. split.
  - intros (x & Hin & Heq). apply bool_decide_eq_true in Heq. subst x.
    by apply list_elem_of_In.
  - intros Hin. exists m. split; [by apply list_elem_of_In|].
    by apply bool_decide_eq_true.
Qed.

Lemma mentions_elem (l : list jsstring) (m : jsstring) :
  includes l (JString m) || includes l star = true ↔ m ∈ l ∨ lit "*" ∈ l.
Proof. unfold star. rewrite orb_true_iff, !includes_elem. reflexivity. Qed.



End IsMethodAllowed.

(** ** [hasRequiredRoles] *)

Section HasRequiredRoles.

Lemma some_role_shared (roles required : list jsstring) :
  existsb (fun role => existsb (jsstring_eqb role) roles) required = true
  ↔ ∃ r, r ∈ roles ∧ r ∈ required.
Proof.
  rewrite existsb_exists. split.
  - intros (r & Hr & Hex). apply existsb_exists in Hex as (u & Hu & Heq).
    apply bool_decide_eq_true in Heq. subst u.
    exists r. split; by apply list_elem_of_In.
  - intros (r & Hu & Hr). exists r. split; [by apply list_elem_of_In|].
    apply existsb_exists. exists r. split; [by apply list_elem_of_In|].
    by apply bool_decide_eq_true.
Qed.

(** C7. [hasRequiredRoles] is true for an empty list of required roles;
    false for a non-empty one when the roles of the user are absent or
    empty; and otherwise true exactly when the user has one of the
    required roles. *)
Theorem hasRequiredRoles_spec (userRoles : option (list jsstring))
    (requiredRoles : list jsstring) :
  (requiredRoles = [] → hasRequiredRoles userRoles requiredRoles = true)
  ∧ (requiredRoles ≠ [] → userRoles = None ∨ userRoles = Some [] →
     hasRequiredRoles userRoles requiredRoles = false)
  ∧ (∀ roles, requiredRoles ≠ [] → userRoles = Some roles → roles ≠ [] →
     (hasRequiredRoles userRoles requiredRoles = true
      ↔ ∃ r, r ∈ roles ∧ r ∈ requiredRoles)).
Proof.
  split; [|split].
  - intros ->. reflexivity.
  - intros Hne [-> | ->]; (destruct requiredRoles; [congruence | reflexivity]).
  - intros roles Hne -> Hr.
    destruct requiredRoles as [|q qs]; [congruence|].
    destruct roles as [|u us]; [congruence|].
    unfold hasRequiredRoles. apply some_role_shared.
Qed.

(** The instance of C7 at roles [admin, user] against the required roles
    [admin, moderator], and at no roles. *)
Lemma hasRequiredRoles_spec_witness :
  hasRequiredRoles (Some [lit "admin"; lit "user"]) [] = true
  ∧ hasRequiredRoles None [lit "admin"] = false
  ∧ (hasRequiredRoles (Some [lit "admin"; lit "user"]) [lit "admin"; lit "moderator"]
     = true
     ↔ ∃ r, r ∈ [lit "admin"; lit "user"] ∧ r ∈ [lit "admin"; lit "moderator"]).
Proof.
  split; [|split].
  - apply (hasRequiredRoles_spec (Some [lit "admin"; lit "user"]) []). reflexivity.
  - apply (hasRequiredRoles_spec None [lit "admin"]); [discriminate | left; reflexivity].
  - apply (hasRequiredRoles_spec (Some [lit "admin"; lit "user"])
             [lit "admin"; lit "moderator"]); [discriminate | reflexivity | discriminate].
Defined.

End HasRequiredRoles.

(** ** [createMessageFilter] *)

Section CreateMessageFilter.

(** What the filter returns once the message that decides is known. *)
Lemma createMessageFilter_message (rs : list jsstring) (c : PermissionsConfig)
    (chunk : Buffer) (message : MCPMessage) :
  parseMCPMessage (Buffer_toString chunk) = Some message →
  createMessageFilter rs (Some c) chunk
  = match method message with
    | Some m =>
      if ToBoolean m && negb (isMethodAllowed m rs c)
      then deny (createErrorResponse (id message) (denied_message m))
      else pass chunk
    | None => pass chunk
    end.
Proof.
  intros H. unfold createMessageFilter. rewrite H.
  destruct (method message) as [m|]; [|reflexivity].
  destruct (ToBoolean m); simpl; [|reflexivity].
  destruct (isMethodAllowed m rs c); reflexivity.
Qed.






Lemma createMessageFilter_no_message (rs : list jsstring)
    (config : option PermissionsConfig) (chunk : Buffer) :
  parseMCPMessage (Buffer_toString chunk) = None →
  createMessageFilter rs config chunk = pass chunk.
Proof.
  intros H. destruct config as [c|]; [|reflexivity].
  unfold createMessageFilter. rewrite H. reflexivity.
Qed.

(** C5. Without a configuration the filter passes every chunk; with one it
    passes every chunk in which no message is found and every chunk whose
    first valid message has no [method]. What it passes is the chunk
    itself. *)
Theorem createMessageFilter_pass (rs : list jsstring)
    (config : option PermissionsConfig) (chunk : Buffer) :
  config = None
  ∨ parseMCPMessage (Buffer_toString chunk) = None
  ∨ (∃ message, parseMCPMessage (Buffer_toString chunk) = Some message
                ∧ method message = None) →
  createMessageFilter rs config chunk
  = {| allowed := true; response := None; filteredData := Some chunk |}.
Proof.
  intros [-> | [H | (message & H & Hm)]]; [reflexivity| |].
  - by apply createMessageFilter_no_message.
  - destruct config as [c|]; [|reflexivity].
    rewrite (createMessageFilter_message _ _ _ _ H), Hm. reflexivity.
Qed.

(** The instance of C5 at a response, under the configuration of section 8. *)
Lemma createMessageFilter_pass_witness :
  (parseMCPMessage (Buffer_toString result_chunk) = Some result_message
   ∧ method result_message = None)
  ∧ createMessageFilter [lit "user"] (Some section8) result_chunk
    = {| allowed := true; response := None; filteredData := Some result_chunk |}.
Proof.
  assert (H : parseMCPMessage (Buffer_toString result_chunk) = Some result_message
              ∧ method result_message = None)
    by (split; vm_compute; reflexivity).
  split; [exact H|].
  apply (createMessageFilter_pass [lit "user"] (Some section8) result_chunk).
  right. right. exists result_message. exact H.
Defined.

(** C10. A chunk none of whose lines parses as a JSON object with
    [jsonrpc] equal to ["2.0"] is passed unchanged, for every role list
    and every configuration; so is a request for a blocked method that
    is not framed as one object of version 2.0 on a line. *)
Theorem createMessageFilter_unframed (rs : list jsstring)
    (config : option PermissionsConfig) (chunk : Buffer) :
  (∀ line props,
     line ∈ split_newline (Buffer_toString chunk) →
     JSON_parse line = Some (JObject props) →
     obj_get props (lit "jsonrpc") ≠ Some (JString (lit "2.0"))) →
  createMessageFilter rs config chunk
  = {| allowed := true; response := None; filteredData := Some chunk |}.
Proof.
  intros H. apply createMessageFilter_no_message.
  rewrite parseMCPMessage_first.
  destruct (first_message (split_newline (Buffer_toString chunk))) as [message|] eqn:E;
    [|reflexivity].
  apply first_message_version in E as (line & Hin & Hp & Hv).
  apply is_version_2_object in Hv as (props & -> & Hj).
  exfalso. exact (H line props Hin Hp Hj).
Qed.

(** The instances of C10 at a request of version 1.0 and at a batch, both
    for [tools/call], which the configuration of section 8 blocks for the
    role [user]: the filter passes them, and the TCP listener of such a
    session writes them to the subprocess as they are. *)
Lemma createMessageFilter_unframed_witness :
  isMethodAllowed (JString (lit "tools/call")) [lit "user"] section8 = false
  ∧ createMessageFilter [lit "user"] (Some section8) version_1_chunk
    = {| allowed := true; response := None; filteredData := Some version_1_chunk |}
  ∧ createMessageFilter [lit "user"] (Some section8) batch_chunk
    = {| allowed := true; response := None; filteredData := Some batch_chunk |}
  ∧ snd (Server.tcp_data reject_all tcp_with_secret (Some section8) quiet
           (Server.TcpFiltering user_filter) version_1_chunk)
    = [Server.WriteStdin version_1_chunk]
  ∧ snd (Server.tcp_data reject_all tcp_with_secret (Some section8) quiet
           (Server.TcpFiltering user_filter) batch_chunk)
    = [Server.WriteStdin batch_chunk].
Proof.
  split; [vm_compute; reflexivity|].
  split; [|split; [|split; vm_compute; reflexivity]].
  - apply (createMessageFilter_unframed [lit "user"] (Some section8) version_1_chunk).
    intros line props Hin Hp Hj.
    assert (Hs : split_newline (Buffer_toString version_1_chunk)
                 = [Buffer_toString version_1_chunk]) by (vm_compute; reflexivity).
    rewrite Hs in Hin. apply list_elem_of_singleton in Hin. subst line.
    vm_compute in Hp. injection Hp as <-. vm_compute in Hj. discriminate.
  - apply (createMessageFilter_unframed [lit "user"] (Some section8) batch_chunk).
    intros line props Hin Hp Hj.
    assert (Hs : split_newline (Buffer_toString batch_chunk)
                 = [Buffer_toString batch_chunk]) by (vm_compute; reflexivity).
    rewrite Hs in Hin. apply list_elem_of_singleton in Hin. subst line.
    vm_compute in Hp. discriminate.
Defined.

End CreateMessageFilter.

(** ** [createErrorResponse] *)

Section CreateErrorResponse.

(** For a truthy [id], and for none, the response is the one the
    specification describes. *)
Lemma createErrorResponse_truthy (id : option JSValue) (reason : jsstring) :
  id = None ∨ truthy id = true →
  createErrorResponse id reason = createErrorResponse_spec id reason.
Proof.
  unfold createErrorResponse, createErrorResponse_spec.
  intros [-> | H]; [reflexivity|].
  destruct id as [v|]; [|discriminate]. simpl in H. rewrite H. reflexivity.
Qed.


(** C6, where the code departs from it. An [id] of 0 is present, and the
    response carries [null] in its place: [id || null] takes every falsy
    [id] for a missing one. The same happens to the request a client
    sends with [id] 0. *)
Theorem createErrorResponse_zero_id :
  createErrorResponse (Some (JNumber (number_of_Z 0))) (lit "Access denied")
  = json "{`jsonrpc`:`2.0`,`id`:null,`error`:{`code`:-32601,`message`:`Method not allowed: Access denied`}}" ++ [10]
  ∧ createErrorResponse_spec (Some (JNumber (number_of_Z 0))) (lit "Access denied")
    = json "{`jsonrpc`:`2.0`,`id`:0,`error`:{`code`:-32601,`message`:`Method not allowed: Access denied`}}" ++ [10]
  ∧ response (createMessageFilter [lit "user"] (Some section8) zero_id_chunk)
    = Some (json "{`jsonrpc`:`2.0`,`id`:null,`error`:{`code`:-32601,`message`:`Method not allowed: Access denied for method 'tools/call'`}}" ++ [10]).
Proof. repeat split; vm_compute; reflexivity. Qed.

End CreateErrorResponse.

(** ** The server *)

Section ServerProperties.
Import Server.

Local Open Scope Z_scope.

(** C9. A server started with the path of a permissions file that is
    missing, or whose text is not JSON, exits with code 1; it does not go
    on without a configuration. The path is a non-empty string: the
    source tests [options.permissionsConfig] for truthiness. *)
Theorem startServer_unloadable_config (fs : FileSystem) (options : Options)
    (path : jsstring) :
  permissionsConfig options = Some path →
  path ≠ [] →
  fs path = None ∨ (∃ text, fs path = Some text ∧ JSON_parse text = None) →
  startServer fs options = Exit 1
  ∧ startServer fs options ≠ Listening None.
Proof.
  intros Hp Hne Hf.
  assert (E : startServer fs options = Exit 1).
  { unfold startServer. rewrite Hp. simpl.
    destruct path as [|ch path']; [congruence|]. simpl.
    unfold loadPermissionsConfig.
    destruct Hf as [-> | (text & -> & ->)]; reflexivity. }
  split; [exact E|]. rewrite E. discriminate.
Qed.

(** The instances of C9 at a missing file and at a file that is not JSON. *)
Lemma startServer_unloadable_config_witness :
  (startServer no_file tcp_with_secret = Exit 1
   ∧ startServer no_file tcp_with_secret ≠ Listening None)
  ∧ (startServer broken_file tcp_with_secret = Exit 1
     ∧ startServer broken_file tcp_with_secret ≠ Listening None).
Proof.
  split.
  - apply (startServer_unloadable_config no_file tcp_with_secret (lit "permissions.json"));
      [reflexivity | discriminate | left; reflexivity].
  - apply (startServer_unloadable_config broken_file tcp_with_secret
             (lit "permissions.json"));
      [reflexivity | discriminate |].
    right. exists (json "{ `permissions`: "). split; vm_compute; reflexivity.
Defined.








(** The WebSocket listener does what C4 says: a connection that sends
    nothing is told of the timeout and closed 10000 ms after it was
    accepted. *)
Lemma ws_authentication_timeout
    (verifyJWTWithPayload : jsstring → jsstring → option JWTPayload)
    (options : Options) (config : option PermissionsConfig) (now until : Z) :
  optional_string_truthy (jwtSecret options) = true →
  now + 10000 <= until →
  ws_run verifyJWTWithPayload options config (ws_connection options now) [] until
  = ({| ws_state := WsAwaitToken; authTimeout := None; ws_open := false |},
     [(now + 10000, Send authentication_timeout); (now + 10000, CloseSocket)]).
Proof.
  intros Hs Hu. unfold ws_connection. rewrite Hs. simpl. unfold ws_expire. simpl.
  destruct (Z.leb_spec (now + 10000) until); [reflexivity | lia].
Qed.

(** C4, where the code departs from it. On a TCP server with a secret, a
    connection that sends nothing gets no timeout signal at all: nothing
    happens to it before the idle timeout of 300000 ms, until which it
    stays open and waits for the token, and the idle timeout destroys
    the socket without a message. *)
Theorem tcp_no_authentication_timeout
    (verifyJWTWithPayload : jsstring → jsstring → option JWTPayload)
    (options : Options) (config : option PermissionsConfig) (now until : Z) :
  optional_string_truthy (jwtSecret options) = true →
  (until < now + 300000 →
   tcp_run verifyJWTWithPayload options config (tcp_connection options now) [] until
   = ({| tcp_state := TcpAwaitToken; idle_deadline := now + 300000 |}, []))
  ∧ (now + 300000 <= until →
     tcp_run verifyJWTWithPayload options config (tcp_connection options now) [] until
     = ({| tcp_state := TcpDestroyed; idle_deadline := now + 300000 |},
        [(now + 300000, DestroySocket)]))
  ∧ (∀ t data,
       (t, Send data)
       ∉ snd (tcp_run verifyJWTWithPayload options config
                (tcp_connection options now) [] until)).
Proof.
  intros Hs. unfold tcp_connection. rewrite Hs. simpl. unfold tcp_expire. simpl.
  split; [|split].
  - intros Hu. destruct (Z.leb_spec (now + 300000) until); [lia | reflexivity].
  - intros Hu. destruct (Z.leb_spec (now + 300000) until); [reflexivity | lia].
  - intros t data.
    destruct (Z.leb_spec (now + 300000) until); simpl.
    + intros Hin. apply list_elem_of_singleton in Hin. discriminate.
    + apply not_elem_of_nil.
Qed.

(** The instance of C4 at one minute after the connection was accepted:
    the TCP session still waits, the WebSocket session has been closed. *)
Lemma tcp_no_authentication_timeout_witness :
  optional_string_truthy (jwtSecret tcp_with_secret) = true
  ∧ tcp_run reject_all tcp_with_secret (Some section8)
      (tcp_connection tcp_with_secret 0) [] 60000
    = ({| tcp_state := TcpAwaitToken; idle_deadline := 300000 |}, [])
  ∧ ws_run reject_all ws_with_secret (Some section8)
      (ws_connection ws_with_secret 0) [] 60000
    = ({| ws_state := WsAwaitToken; authTimeout := None; ws_open := false |},
       [(10000, Send authentication_timeout); (10000, CloseSocket)]).
Proof.
  split; [reflexivity|]. split.
  - apply (tcp_no_authentication_timeout reject_all tcp_with_secret (Some section8)
             0 60000); [reflexivity | lia].
  - apply (ws_authentication_timeout reject_all ws_with_secret (Some section8)
             0 60000); [reflexivity | lia].
Defined.

End ServerProperties.

(** * Further properties of the code *)

(** ** More on [isMethodAllowed] *)

Section MoreIsMethodAllowed.

#[local] Arguments includes : simpl never.

Lemma isMethodAllowed_scan (m : JSValue) (rs : list jsstring) (c : PermissionsConfig) :
  isMethodAllowed m rs c = scan_roles m rs c.
Proof. destruct rs; reflexivity. Qed.

Lemma scan_roles_granted (m : jsstring) (rs : list jsstring) (c : PermissionsConfig) :
  scan_roles (JString m) rs c = true →
  ∃ role rolePerms,
    role ∈ rs
    ∧ (permissions c !! role = Some rolePerms)
    ∧ (m ∈ allowedMethods rolePerms ∨ lit "*" ∈ allowedMethods rolePerms)
    ∧ (m ∉ blockedMethods rolePerms)
    ∧ lit "*" ∉ blockedMethods rolePerms.
Proof.
  induction rs as [|role rest IH]; [discriminate|].
  simpl. destruct (permissions c !! role) as [p|] eqn:L.
  - destruct (includes (blockedMethods p) (JString m)
              || includes (blockedMethods p) star) eqn:B; [discriminate|].
    destruct (includes (allowedMethods p) (JString m)
              || includes (allowedMethods p) star) eqn:A.
    + intros _. exists role, p. split; [left|]. split; [exact L|].
      apply mentions_elem in A. split; [exact A|].
      split; intros H; apply not_true_iff_false in B; apply B, mentions_elem; auto.
    + intros H. destruct (IH H) as (r & q & Hin & ?). exists r, q. split; [right|]; auto.
  - intros H. destruct (IH H) as (r & q & Hin & ?). exists r, q. split; [right|]; auto.
Qed.

(** X1. A method is granted only by an entry that allows it: when
    [isMethodAllowed] returns true, one of the user's roles is in the
    configuration with the method or the wildcard among its allowed
    methods and with neither among its blocked methods. *)
Theorem isMethodAllowed_grant_is_explicit (m : jsstring) (rs : list jsstring)
    (c : PermissionsConfig) :
  isMethodAllowed (JString m) rs c = true →
  ∃ role rolePerms,
    role ∈ rs
    ∧ (permissions c !! role = Some rolePerms)
    ∧ (m ∈ allowedMethods rolePerms ∨ lit "*" ∈ allowedMethods rolePerms)
    ∧ (m ∉ blockedMethods rolePerms)
    ∧ lit "*" ∉ blockedMethods rolePerms.
Proof. rewrite isMethodAllowed_scan. apply scan_roles_granted. Qed.

(** The instance of X1 at [tools/list] for the roles [user, admin]. *)
Lemma isMethodAllowed_grant_is_explicit_witness :
  isMethodAllowed (JString (lit "tools/list")) [lit "user"; lit "admin"] section8 = true
  ∧ ∃ role rolePerms,
      role ∈ [lit "user"; lit "admin"]
      ∧ (permissions section8 !! role = Some rolePerms)
      ∧ (lit "tools/list" ∈ allowedMethods rolePerms ∨ lit "*" ∈ allowedMethods rolePerms)
      ∧ (lit "tools/list" ∉ blockedMethods rolePerms)
      ∧ lit "*" ∉ blockedMethods rolePerms.
Proof.
  assert (H : isMethodAllowed (JString (lit "tools/list")) [lit "user"; lit "admin"]
                section8 = true) by (vm_compute; reflexivity).
  split; [exact H|].
  exact (isMethodAllowed_grant_is_explicit (lit "tools/list") [lit "user"; lit "admin"]
           section8 H).
Defined.






End MoreIsMethodAllowed.

(** ** More on [parseMCPMessage] and on the startup *)

Section MoreParsing.
Import Server.

(** X4. What [parseMCPMessage] returns is a JSON object whose [jsonrpc]
    is the string ["2.0"], parsed from one of the lines of the data; and
    it returns nothing exactly when no line of the data parses to a
    value with that [jsonrpc]. *)
Theorem parseMCPMessage_result (data : jsstring) :
  (∀ message,
     parseMCPMessage data = Some message →
     (∃ props, message = JObject props
               ∧ obj_get props (lit "jsonrpc") = Some (JString (lit "2.0")))
     ∧ (∃ line, line ∈ split_newline data ∧ JSON_parse line = Some message))
  ∧ (parseMCPMessage data = None
     ↔ ∀ line v, line ∈ split_newline data → JSON_parse line = Some v →
                 is_version_2 v = false).
Proof.
  rewrite parseMCPMessage_first. split.
  - intros message H. apply first_message_version in H as (line & Hin & Hp & Hv).
    split; [by apply is_version_2_object | eauto].
  - induction (split_newline data) as [|l rest IH]; simpl.
    + split; [|reflexivity]. intros _ line v Hin. by apply elem_of_nil in Hin.
    + destruct (JSON_parse l) as [w|] eqn:P.
      * destruct (is_version_2 w) eqn:V.
        -- split; [discriminate|]. intros H.
           specialize (H l w (list_elem_of_here _ _) P). congruence.
        -- rewrite IH. split.
           ++ intros H line v Hin Hp. apply elem_of_cons in Hin as [-> | Hin];
                [congruence | eauto].
           ++ intros H line v Hin. apply H. by right.
      * rewrite IH. split.
        -- intros H line v Hin Hp. apply elem_of_cons in Hin as [-> | Hin];
             [congruence | eauto].
        -- intros H line v Hin. apply H. by right.
Qed.

(** The instance of X4 at the chunk of three lines. *)
Lemma parseMCPMessage_result_witness :
  parseMCPMessage (Buffer_toString three_lines_chunk) = Some tools_list_message
  ∧ (∃ props, tools_list_message = JObject props
              ∧ obj_get props (lit "jsonrpc") = Some (JString (lit "2.0")))
  ∧ (∃ line, line ∈ split_newline (Buffer_toString three_lines_chunk)
             ∧ JSON_parse line = Some tools_list_message).
Proof.
  assert (H : parseMCPMessage (Buffer_toString three_lines_chunk)
              = Some tools_list_message) by (vm_compute; reflexivity).
  split; [exact H|].
  exact (proj1 (parseMCPMessage_result (Buffer_toString three_lines_chunk))
           tools_list_message H).
Defined.

(** X5. The server goes on with a configuration exactly when the file at
    the non-empty path holds JSON text for a truthy value, and that value
    is the configuration, whatever its shape: an array or a number is
    taken as well as an object, while [null], [false], [0] and the empty
    string make the server exit like a file that cannot be read. *)
Theorem startServer_listening (fs : FileSystem) (options : Options) (v : JSValue) :
  startServer fs options = Listening (Some v)
  ↔ ∃ path text,
      permissionsConfig options = Some path ∧ path ≠ []
      ∧ fs path = Some text ∧ JSON_parse text = Some v ∧ ToBoolean v = true.
Proof.
  unfold startServer, loadPermissionsConfig. split.
  - destruct (permissionsConfig options) as [[|ch path]|] eqn:Hp; simpl;
      try discriminate.
    destruct (fs (ch :: path)) as [text|] eqn:Hf; simpl; [|discriminate].
    destruct (JSON_parse text) as [w|] eqn:Hj; simpl; [|discriminate].
    destruct (ToBoolean w) eqn:Hw; simpl; [|discriminate].
    intros [= <-]. exists (ch :: path), text. auto.
  - intros (path & text & -> & Hne & Hf & Hj & Hw).
    destruct path as [|ch path]; [congruence|]. simpl.
    rewrite Hf, Hj, Hw. reflexivity.
Qed.

(** The instance of X5 at a file that holds an empty array. *)
Lemma startServer_listening_witness :
  startServer (fun _ => Some (lit "[]")) tcp_with_secret = Listening (Some (JArray [])).
Proof.
  apply (startServer_listening (fun _ => Some (lit "[]")) tcp_with_secret (JArray [])).
  exists (lit "permissions.json"), (lit "[]").
  repeat split; try reflexivity. discriminate.
Defined.

End MoreParsing.

(** ** More on [hasRequiredRoles] *)

Section MoreHasRequiredRoles.

(** X6. The order of the roles matters neither in the list of the user
    nor in the list of the required roles. *)
Theorem hasRequiredRoles_order (userRoles userRoles' requiredRoles requiredRoles'
    : list jsstring) :
  userRoles ≡ₚ userRoles' →
  requiredRoles ≡ₚ requiredRoles' →
  hasRequiredRoles (Some userRoles) requiredRoles
  = hasRequiredRoles (Some userRoles') requiredRoles'.
Proof.
  intros Hu Hr.
  destruct requiredRoles as [|q qs].
  { apply Permutation_nil_l in Hr. subst. reflexivity. }
  destruct requiredRoles' as [|q' qs'].
  { apply Permutation_nil_r in Hr. discriminate. }
  destruct userRoles as [|u us].
  { apply Permutation_nil_l in Hu. subst. reflexivity. }
  destruct userRoles' as [|u' us'].
  { apply Permutation_nil_r in Hu. discriminate. }
  unfold hasRequiredRoles. apply eq_true_iff_eq.
  rewrite !some_role_shared.
  split; intros (r & H1 & H2); exists r.
  - by rewrite <- Hu, <- Hr.
  - by rewrite Hu, Hr.
Qed.

(** The instance of X6 at two roles in either order. *)
Lemma hasRequiredRoles_order_witness :
  hasRequiredRoles (Some [lit "user"; lit "admin"]) [lit "ops"; lit "admin"]
  = hasRequiredRoles (Some [lit "admin"; lit "user"]) [lit "admin"; lit "ops"].
Proof.
  apply (hasRequiredRoles_order [lit "user"; lit "admin"] [lit "admin"; lit "user"]
           [lit "ops"; lit "admin"] [lit "admin"; lit "ops"]);
    apply perm_swap.
Defined.

End MoreHasRequiredRoles.

(** ** More on the handshake of the server *)

Section MoreHandshake.
Import Server.

Local Open Scope Z_scope.

Variable verifyJWTWithPayload : jsstring → jsstring → option JWTPayload.
Variable options : Options.
Variable config : option PermissionsConfig.

Let authenticate := authenticate verifyJWTWithPayload options config.
Let tcp_data := tcp_data verifyJWTWithPayload options config.
Let tcp_deliver := tcp_deliver verifyJWTWithPayload options config.
Let ws_run := ws_run verifyJWTWithPayload options config.

(** The replies to a token that is not accepted. *)
Lemma authenticate_rejected (token : jsstring) :
  snd (authenticate token) = None →
  fst (authenticate token) = authentication_failed
  ∨ ∃ payload required,
      verifyJWTWithPayload token (secret options) = Some payload
      ∧ requiredRoles options = Some required
      ∧ hasRequiredRoles (roles payload) required = false
      ∧ fst (authenticate token) = insufficient_roles required payload.
Proof.
  unfold authenticate, Server.authenticate.
  destruct (verifyJWTWithPayload token (secret options)) as [payload|]; [|by left].
  destruct (requiredRoles options) as [required|]; [|discriminate].
  destruct (hasRequiredRoles (roles payload) required) eqn:H; [discriminate|].
  intros _. right. exists payload, required. auto.
Qed.

Lemma tcp_deliver_ended (arrivals : list (Env * Buffer)) :
  tcp_deliver TcpEnded arrivals = (TcpEnded, []).
Proof.
  unfold tcp_deliver.
  induction arrivals as [|[env data] rest IH]; [reflexivity|].
  cbn [Server.tcp_deliver Server.tcp_data]. rewrite IH. reflexivity.
Qed.

(** X7. On a TCP connection that has to authenticate, the first chunk is
    the token and is never written to the subprocess. When the token does
    not verify, or its roles share none with the required ones, the peer
    gets one line, the authentication failure or the insufficient roles,
    the socket is ended, and whatever the peer sends afterwards is
    dropped: nothing of the connection ever reaches the subprocess. *)
Theorem tcp_rejected_token (env : Env) (data : Buffer) (rest : list (Env * Buffer)) :
  (∀ d, WriteStdin d ∉ snd (tcp_data env TcpAwaitToken data))
  ∧ (snd (authenticate (trim (Buffer_toString data))) = None →
     ∃ reply,
       tcp_deliver TcpAwaitToken ((env, data) :: rest)
       = (TcpEnded, [Send (reply ++ [10%N]); EndSocket])
       ∧ (reply = authentication_failed
          ∨ ∃ payload required,
              verifyJWTWithPayload (trim (Buffer_toString data)) (secret options)
              = Some payload
              ∧ requiredRoles options = Some required
              ∧ hasRequiredRoles (roles payload) required = false
              ∧ reply = insufficient_roles required payload)).
Proof.
  split.
  - intros d. unfold tcp_data, Server.tcp_data.
    fold (authenticate (trim (Buffer_toString data))).
    destruct (authenticate (trim (Buffer_toString data))) as [reply [f|]]; simpl;
      intros H; repeat (apply elem_of_cons in H as [H|H]; [discriminate|]);
      by apply elem_of_nil in H.
  - intros Hn. exists (fst (authenticate (trim (Buffer_toString data)))).
    split; [|by apply authenticate_rejected].
    unfold tcp_deliver. cbn [Server.tcp_deliver Server.tcp_data].
    fold (authenticate (trim (Buffer_toString data))).
    destruct (authenticate (trim (Buffer_toString data))) as [reply [f|]];
      [discriminate|].
    fold tcp_deliver. rewrite tcp_deliver_ended. reflexivity.
Qed.



(** X9. A first message that comes before the 10000 ms are over stops the
    authentication timer: if the token is accepted the session filters
    from then on, if not the socket is closed, and in either case the peer
    gets the one reply and no timeout message, however long the clock
    runs. *)
Theorem ws_token_in_time (now t until : Z) (env : Env) (msg : Buffer) :
  optional_string_truthy (jwtSecret options) = true →
  t < now + 10000 →
  ws_run (ws_connection options now) [(t, env, msg)] until
  = match authenticate (trim (Buffer_toString msg)) with
    | (reply, Some messageFilter) =>
      ({| ws_state := WsFiltering messageFilter; authTimeout := None; ws_open := true |},
       [(t, Send reply)])
    | (reply, None) =>
      ({| ws_state := WsAwaitToken; authTimeout := None; ws_open := false |},
       [(t, Send reply); (t, CloseSocket)])
    end.
Proof.
  intros Hs Ht. unfold ws_connection. rewrite Hs.
  unfold ws_run. cbn [Server.ws_run]. unfold ws_arrival, ws_expire. simpl.
  destruct (Z.leb_spec (now + 10000) t); [lia|]. simpl.
  unfold ws_message. simpl. fold (authenticate (trim (Buffer_toString msg))).
  destruct (authenticate (trim (Buffer_toString msg))) as [reply [f|]]; reflexivity.
Qed.

End MoreHandshake.

(** The instance of X7 at a verifier that accepts no token. *)
Lemma tcp_rejected_token_witness :
  snd (Server.authenticate reject_all tcp_with_secret (Some section8)
         (trim (Buffer_toString (buf "no token")))) = None
  ∧ Server.tcp_deliver reject_all tcp_with_secret (Some section8) Server.TcpAwaitToken
      [(quiet, buf "no token"); (quiet, tools_call_chunk)]
    = (Server.TcpEnded,
       [Server.Send (Server.authentication_failed ++ [10]); Server.EndSocket]).
Proof.
  assert (H : snd (Server.authenticate reject_all tcp_with_secret (Some section8)
                     (trim (Buffer_toString (buf "no token")))) = None)
    by reflexivity.
  split; [exact H|].
  destruct (tcp_rejected_token reject_all tcp_with_secret (Some section8) quiet
              (buf "no token") [(quiet, tools_call_chunk)]) as [_ Hr].
  destruct (Hr H) as (reply & -> & [-> | (payload & required & Hv & _)]);
    [reflexivity | discriminate].
Defined.


(** The instance of X9 at a message 2 s after the connection. *)
Lemma ws_token_in_time_witness :
  (Server.optional_string_truthy (Server.jwtSecret ws_with_secret) = true
   ∧ (2000 < 0 + 10000)%Z)
  ∧ Server.ws_run reject_all ws_with_secret (Some section8)
      (Server.ws_connection ws_with_secret 0) [(2000%Z, quiet, buf "token")] 60000
    = ({| Server.ws_state := Server.WsAwaitToken; Server.authTimeout := None;
          Server.ws_open := false |},
       [(2000%Z, Server.Send Server.authentication_failed);
        (2000%Z, Server.CloseSocket)]).
Proof.
  assert (H : Server.optional_string_truthy (Server.jwtSecret ws_with_secret) = true
              ∧ (2000 < 0 + 10000)%Z) by (split; [reflexivity | lia]).
  split; [exact H|]. destruct H as (H1 & H2).
  rewrite (ws_token_in_time reject_all ws_with_secret (Some section8) 0 2000 60000
             quiet (buf "token") H1 H2).
  reflexivity.
Defined.

(** ** What [JSON.stringify] writes *)

Section Printable.

Lemma printable_app (a b : jsstring) :
  Forall printable a → Forall printable b → Forall printable (a ++ b).
Proof. intros. by apply Forall_app. Qed.

Lemma printable_lit_ok (s : jsstring) :
  forallb (fun c => 32 <=? c) s = true → Forall printable s.
Proof.
  intros H. apply Forall_forall. intros c Hin.
  apply list_elem_of_In in Hin.
  rewrite forallb_forall in H. apply N.leb_le, H, Hin.
Qed.

Lemma printable_uint (u : Decimal.uint) : Forall printable (uint_codes u).
Proof.
  induction u; simpl; constructor; try assumption; unfold printable; lia.
Qed.

Lemma printable_zeros (n : Z) : Forall printable (zeros n).
Proof.
  unfold zeros. induction (Z.to_nat n); simpl; constructor;
    [unfold printable; lia | assumption].
Qed.

Lemma printable_format (ds : jsstring) (n : Z) :
  Forall printable ds → Forall printable (format_digits ds n).
Proof.
  intros H. unfold format_digits.
  assert (Hd : ∀ z, Forall printable (decimal_digits z))
    by (intros; apply printable_uint).
  assert (H46 : printable 46) by (unfold printable; lia).
  assert (H48 : printable 48) by (unfold printable; lia).
  assert (H101 : printable 101) by (unfold printable; lia).
  assert (Hs : ∀ b : bool, printable (if b then 45 else 43))
    by (intros []; unfold printable; lia).
  repeat case_match; subst;
    repeat (apply printable_app || apply List.Forall_cons || apply List.Forall_nil
            || apply Forall_take || apply Forall_drop || apply printable_zeros
            || apply Hd || apply Hs || assumption);
    try (by inversion H); try (inversion H; subst; assumption);
    try (inversion H as [|? ? ? H']; inversion H'; subst; assumption).
Qed.

Lemma printable_number (x : number) : Forall printable (Number_toString x).
Proof.
  destruct x as [s|s| |s m e].
  - apply printable_lit_ok. reflexivity.
  - destruct s; apply printable_lit_ok; reflexivity.
  - apply printable_lit_ok. reflexivity.
  - unfold Number_toString.
    destruct (if (0 <=? e)%Z then (Z.pos m * 2 ^ e, 1)%Z else (Z.pos m, 2 ^ (- e))%Z)
      as [num den].
    destruct (shortest_digits 17 (S754_finite false m e) num den
                (decimal_exponent num den) 1) as [digits n'].
    apply printable_app.
    + destruct s; repeat constructor. unfold printable. lia.
    + apply printable_format, printable_uint.
Qed.

Lemma printable_hex_digit (d : N) : printable (hex_digit d).
Proof. unfold hex_digit, printable. case_match; lia. Qed.

Lemma printable_unicode_escape (c : N) : Forall printable (unicode_escape c).
Proof.
  unfold unicode_escape.
  repeat constructor; try apply printable_hex_digit; unfold printable; lia.
Qed.

Lemma printable_quote_unit (c : N) : Forall printable (quote_unit c).
Proof.
  unfold quote_unit.
  repeat case_match; try apply printable_unicode_escape;
    try (apply printable_lit_ok; reflexivity).
  repeat constructor. unfold printable.
  match goal with Hc : (_ <? 32) || _ || _ = false |- _ =>
    apply orb_false_iff in Hc as [Hc _]; apply orb_false_iff in Hc as [Hc _];
    apply N.ltb_ge in Hc; exact Hc end.
Qed.

Lemma printable_quote_units (s : jsstring) : Forall printable (quote_units s).
Proof.
  assert (H : ∀ n (s : jsstring), (length s <= n)%nat → Forall printable (quote_units s)).
  { clear s. induction n as [|n IH]; intros [|c s] Hl; cbn [quote_units];
      simpl in Hl; try constructor; try lia.
    destruct (is_high_surrogate c) eqn:Hc.
    - destruct s as [|d s]; [apply printable_unicode_escape|].
      destruct (is_low_surrogate d) eqn:Hd.
      + unfold is_high_surrogate in Hc. unfold is_low_surrogate in Hd.
        apply andb_true_iff in Hc as [Hc _]. apply andb_true_iff in Hd as [Hd _].
        apply N.leb_le in Hc, Hd.
        constructor; [unfold printable; lia|].
        constructor; [unfold printable; lia|].
        apply IH. simpl in Hl. lia.
      + apply printable_app; [apply printable_unicode_escape|]. apply IH. lia.
    - apply printable_app; [apply printable_quote_unit|]. apply IH. lia. }
  by apply (H (length s)).
Qed.

Lemma printable_quote (s : jsstring) : Forall printable (quote s).
Proof.
  unfold quote. constructor; [unfold printable; lia|].
  apply printable_app; [apply printable_quote_units|].
  repeat constructor. unfold printable. lia.
Qed.

Lemma printable_join (parts : list jsstring) :
  Forall (Forall printable) parts → Forall printable (join [44] parts).
Proof.
  induction 1 as [|p ps Hp Hps IH]; [constructor|].
  destruct ps as [|q ps]; [exact Hp|].
  change (join [44] (p :: q :: ps)) with (p ++ [44] ++ join [44] (q :: ps)).
  apply printable_app; [exact Hp|]. apply printable_app; [|exact IH].
  repeat constructor. unfold printable. lia.
Qed.

(** The text [JSON.stringify] writes holds no control character, so no
    line break. *)
Lemma printable_stringify (v : JSValue) : Forall printable (JSON_stringify v).
Proof.
  induction v using JSValue_induction.
  - apply printable_lit_ok. reflexivity.
  - destruct b; apply printable_lit_ok; reflexivity.
  - simpl. destruct (number_finite x);
      [apply printable_number | apply printable_lit_ok; reflexivity].
  - apply printable_quote.
  - simpl. constructor; [unfold printable; lia|].
    apply printable_app; [|repeat constructor; unfold printable; lia].
    apply printable_join.
    induction H as [|e l He _ IH]; constructor; assumption.
  - simpl. constructor; [unfold printable; lia|].
    apply printable_app; [|repeat constructor; unfold printable; lia].
    apply printable_join.
    induction H as [|[k e] l He _ IH]; constructor; [|assumption].
    change (Forall printable (quote k ++ 58 :: JSON_stringify e)).
    apply printable_app; [apply printable_quote|].
    constructor; [unfold printable; lia | exact He].
Qed.

(** X10. Whatever the [id] and the message, [createErrorResponse]
    returns one line: text without any control character, so without a
    line break, and then the newline. A method name cannot break the
    framing of the responses. *)
Theorem createErrorResponse_one_line (id : option JSValue) (message : jsstring) :
  ∃ line, createErrorResponse id message = line ++ [10]
          ∧ Forall (fun c => 32 <= c) line.
Proof.
  unfold createErrorResponse. eexists. split; [reflexivity|].
  apply printable_stringify.
Qed.

End Printable.

(** ** [JSON.parse] reads what [JSON.stringify] writes *)

Section ReadBack.

Lemma run_app (st : pstate) (pre rest : jsstring) :
  run st (pre ++ rest)
  = match steps st pre with
    | Some st' => run st' rest
    | None => None
    end.
Proof.
  revert st. induction pre as [|c pre IH]; intros st; [reflexivity|].
  simpl. destruct (step st c); [apply IH | reflexivity].
Qed.

Lemma steps_app (st : pstate) (a b : jsstring) :
  steps st (a ++ b)
  = match steps st a with
    | Some st' => steps st' b
    | None => None
    end.
Proof.
  revert st. induction a as [|c a IH]; intros st; [reflexivity|].
  simpl. destruct (step st c); [apply IH | reflexivity].
Qed.

Lemma step_plain (stk : list frame) (iskey : bool) (acc : jsstring) (c : N) :
  c ≠ 34 → c ≠ 92 → 32 <= c →
  step (in_string stk iskey acc) c = Some (in_string stk iskey (c :: acc)).
Proof.
  intros H1 H2 H3. unfold step, in_string. simpl.
  destruct (N.eqb_spec c 34); [contradiction|].
  destruct (N.eqb_spec c 92); [contradiction|].
  destruct (N.ltb_spec c 32); [lia | reflexivity].
Qed.

Lemma hex_value_digit (d : N) : d < 16 → hex_value (hex_digit d) = Some d.
Proof.
  intros H.
  assert (Hd : d = 0 ∨ d = 1 ∨ d = 2 ∨ d = 3 ∨ d = 4 ∨ d = 5 ∨ d = 6 ∨ d = 7
               ∨ d = 8 ∨ d = 9 ∨ d = 10 ∨ d = 11 ∨ d = 12 ∨ d = 13 ∨ d = 14 ∨ d = 15)
    by lia.
  repeat (destruct Hd as [-> | Hd]; [reflexivity|]). subst. reflexivity.
Qed.

Lemma hex_digits_value (c : N) :
  c < 65536 →
  N.shiftr c 12 < 16 ∧ N.land (N.shiftr c 8) 15 < 16
  ∧ N.land (N.shiftr c 4) 15 < 16 ∧ N.land c 15 < 16
  ∧ (((0 * 16 + N.shiftr c 12) * 16 + N.land (N.shiftr c 8) 15) * 16
     + N.land (N.shiftr c 4) 15) * 16 + N.land c 15 = c.
Proof.
  intros H.
  change 15 with (N.ones 4). rewrite !N.land_ones, !N.shiftr_div_pow2.
  change (2 ^ 12) with 4096. change (2 ^ 8) with 256. change (2 ^ 4) with 16.
  pose proof (N.div_mod c 4096 ltac:(lia)).
  pose proof (N.mod_lt c 4096 ltac:(lia)).
  pose proof (N.div_mod c 256 ltac:(lia)).
  pose proof (N.mod_lt c 256 ltac:(lia)).
  pose proof (N.div_mod c 16 ltac:(lia)).
  pose proof (N.mod_lt c 16 ltac:(lia)).
  pose proof (N.div_mod (c / 256) 16 ltac:(lia)).
  pose proof (N.mod_lt (c / 256) 16 ltac:(lia)).
  pose proof (N.div_mod (c / 16) 16 ltac:(lia)).
  pose proof (N.mod_lt (c / 16) 16 ltac:(lia)).
  assert (c / 256 / 16 = c / 4096) by (rewrite N.Div0.div_div; reflexivity).
  assert (c / 16 / 16 = c / 256) by (rewrite N.Div0.div_div; reflexivity).
  assert (c / 4096 < 16) by (apply N.Div0.div_lt_upper_bound; lia).
  lia.
Qed.

Lemma step_hex (stk : list frame) (iskey : bool) (acc : jsstring) (todo : nat)
    (v h d : N) :
  hex_value h = Some d →
  step {| stack := stk; pmode := MHex iskey acc todo v; result := None |} h
  = Some {| stack := stk;
            pmode := match todo with
                     | 0%nat | 1%nat => MString iskey ((v * 16 + d) :: acc)
                     | S todo' => MHex iskey acc todo' (v * 16 + d)
                     end;
            result := None |}.
Proof.
  intros H. unfold step. simpl. rewrite H. destruct todo as [|[|n]]; reflexivity.
Qed.

Lemma steps_unicode_escape (stk : list frame) (iskey : bool) (acc : jsstring) (c : N) :
  c < 65536 →
  steps (in_string stk iskey acc) (unicode_escape c)
  = Some (in_string stk iskey (c :: acc)).
Proof.
  intros H. destruct (hex_digits_value c H) as (H1 & H2 & H3 & H4 & Hv).
  unfold unicode_escape.
  change (steps (in_string stk iskey acc)
            (92 :: 117 :: hex_digit (N.shiftr c 12)
                :: hex_digit (N.land (N.shiftr c 8) 15)
                :: hex_digit (N.land (N.shiftr c 4) 15)
                :: [hex_digit (N.land c 15)]))
    with (steps {| stack := stk; pmode := MHex iskey acc 4 0; result := None |}
            (hex_digit (N.shiftr c 12)
               :: hex_digit (N.land (N.shiftr c 8) 15)
               :: hex_digit (N.land (N.shiftr c 4) 15)
               :: [hex_digit (N.land c 15)])).
  cbn [steps].
  rewrite (step_hex _ _ _ _ _ _ _ (hex_value_digit _ H1)).
  rewrite (step_hex _ _ _ _ _ _ _ (hex_value_digit _ H2)).
  rewrite (step_hex _ _ _ _ _ _ _ (hex_value_digit _ H3)).
  rewrite (step_hex _ _ _ _ _ _ _ (hex_value_digit _ H4)).
  unfold in_string. rewrite Hv. reflexivity.
Qed.

Lemma surrogate_bounds (c : N) :
  is_high_surrogate c || is_low_surrogate c = true → 55296 <= c ∧ c < 65536.
Proof.
  unfold is_high_surrogate, is_low_surrogate.
  rewrite orb_true_iff, !andb_true_iff, !N.leb_le. lia.
Qed.

Lemma steps_quote_unit (stk : list frame) (iskey : bool) (acc : jsstring) (c : N) :
  steps (in_string stk iskey acc) (quote_unit c)
  = Some (in_string stk iskey (c :: acc)).
Proof.
  unfold quote_unit.
  destruct (N.eqb_spec c 8) as [->|]; [reflexivity|].
  destruct (N.eqb_spec c 9) as [->|]; [reflexivity|].
  destruct (N.eqb_spec c 10) as [->|]; [reflexivity|].
  destruct (N.eqb_spec c 12) as [->|]; [reflexivity|].
  destruct (N.eqb_spec c 13) as [->|]; [reflexivity|].
  destruct (N.eqb_spec c 34) as [->|]; [reflexivity|].
  destruct (N.eqb_spec c 92) as [->|]; [reflexivity|].
  destruct ((c <? 32) || is_high_surrogate c || is_low_surrogate c) eqn:E.
  - apply steps_unicode_escape.
    rewrite <- orb_assoc in E. apply orb_true_iff in E as [E|E].
    + apply N.ltb_lt in E. lia.
    + apply surrogate_bounds in E. lia.
  - apply orb_false_iff in E as [E _]. apply orb_false_iff in E as [E _].
    apply N.ltb_ge in E. cbn [steps]. rewrite step_plain by assumption. reflexivity.
Qed.

Lemma steps_quote_units (s : jsstring) (stk : list frame) (iskey : bool)
    (acc : jsstring) :
  steps (in_string stk iskey acc) (quote_units s)
  = Some (in_string stk iskey (rev s ++ acc)).
Proof.
  assert (H : ∀ n (s : jsstring) acc, (length s <= n)%nat →
              steps (in_string stk iskey acc) (quote_units s)
              = Some (in_string stk iskey (rev s ++ acc))).
  { clear s acc. induction n as [|n IH]; intros [|c s] acc Hl; cbn [quote_units];
      simpl in Hl; try reflexivity; try lia.
    destruct (is_high_surrogate c) eqn:Hc.
    - assert (Hb : 55296 <= c ∧ c < 65536)
        by (apply surrogate_bounds; rewrite Hc; reflexivity).
      destruct s as [|d s].
      + rewrite steps_unicode_escape by lia. reflexivity.
      + destruct (is_low_surrogate d) eqn:Hd.
        * assert (Hb' : 55296 <= d ∧ d < 65536)
            by (apply surrogate_bounds; rewrite Hd; apply orb_true_r).
          cbn [steps]. rewrite step_plain by lia.
          rewrite step_plain by lia.
          rewrite IH by (simpl in Hl; lia).
          simpl. rewrite <- !app_assoc. reflexivity.
        * rewrite steps_app, steps_unicode_escape by lia.
          rewrite IH by lia. simpl. rewrite <- !app_assoc. reflexivity.
    - rewrite steps_app, steps_quote_unit. rewrite IH by lia.
      simpl. rewrite <- !app_assoc. reflexivity. }
  by apply (H (length s)).
Qed.

(** A quoted string, read where a string begins. *)
Lemma steps_quoted (s : jsstring) (stk : list frame) (iskey : bool) :
  steps (in_string stk iskey []) (quote_units s ++ [34])
  = end_string iskey s stk.
Proof.
  rewrite steps_app, steps_quote_units. rewrite app_nil_r.
  cbn [steps]. unfold step, in_string. simpl. rewrite rev_involutive.
  destruct (end_string iskey s stk); reflexivity.
Qed.

Lemma step_complete (v : JSValue) (stk : list frame) (c : N) :
  step (complete v stk) c = step_after (complete v stk) c.
Proof. destruct stk as [|[elems|props k] stk]; reflexivity. Qed.

Lemma num_next_delimiter (s : numst) (a : numacc) (c : N) :
  delimiter c → num_next s a c = None.
Proof.
  intros [-> | [-> | [-> | ->]]]; destruct s; reflexivity.
Qed.

Lemma finish_number (s : numst) (a : numacc) (stk : list frame) :
  num_accepting s = true →
  finish {| stack := stk; pmode := MNumber s a; result := None |}
  = finish (complete (num_value a) stk).
Proof.
  intros H. unfold finish. simpl. rewrite H.
  destruct stk as [|[elems|props k] stk]; reflexivity.
Qed.

Lemma readable_array (elems : list JSValue) :
  readable (JArray elems) ↔ Forall readable elems.
Proof.
  simpl. induction elems as [|e l IH]; [split; constructor|].
  rewrite IH. split.
  - intros [? ?]. by constructor.
  - intros H. inversion H. auto.
Qed.

Lemma readable_object (props : list (jsstring * JSValue)) :
  readable (JObject props)
  ↔ define_all [] props = props ∧ Forall (fun kv => readable kv.2) props.
Proof.
  simpl. apply and_iff_compat_l.
  induction props as [|kv l IH]; [split; constructor|].
  rewrite IH. split.
  - intros [? ?]. by constructor.
  - intros H. inversion H. auto.
Qed.

Lemma stringify_array (elems : list JSValue) :
  JSON_stringify (JArray elems) = 91 :: join [44] (JSON_stringify <$> elems) ++ [93].
Proof.
  reflexivity.
Qed.

Lemma stringify_object (props : list (jsstring * JSValue)) :
  JSON_stringify (JObject props) = 123 :: join [44] (member <$> props) ++ [125].
Proof.
  simpl. f_equal. f_equal. f_equal.
  induction props as [|[k e] l IH]; [reflexivity|].
  simpl. by rewrite IH.
Qed.

Lemma reads_back_elements (elems : list JSValue) :
  Forall reads_back elems → Forall readable elems → elems ≠ [] →
  ∀ done stk b suffix,
    run {| stack := FArray done :: stk; pmode := MValue b; result := None |}
      (join [44] (JSON_stringify <$> elems) ++ 93 :: suffix)
    = run (complete (JArray (rev done ++ elems)) stk) suffix.
Proof.
  intros HP HR. revert HR.
  induction HP as [|e l He _ IH]; intros HR Hne done stk b suffix; [congruence|].
  inversion HR as [|? ? Hre Hrl]; subst.
  destruct l as [|e' l].
  - cbn [fmap list_fmap join].
    change {| stack := FArray done :: stk; pmode := MValue b; result := None |}
      with (value_state (FArray done :: stk) b None).
    rewrite (He Hre) by (right; left; reflexivity).
    cbn [run]. rewrite step_complete. reflexivity.
  - change (join [44] (JSON_stringify <$> e :: e' :: l))
      with (JSON_stringify e ++ [44] ++ join [44] (JSON_stringify <$> e' :: l)).
    rewrite <- !app_assoc.
    change {| stack := FArray done :: stk; pmode := MValue b; result := None |}
      with (value_state (FArray done :: stk) b None).
    rewrite (He Hre) by (left; reflexivity).
    cbn [run app]. rewrite step_complete.
    cbn [complete step_after is_json_space]. cbn.
    rewrite (IH Hrl) by discriminate.
    simpl. rewrite <- app_assoc. reflexivity.
Qed.

Lemma reads_back_members (props : list (jsstring * JSValue)) :
  Forall (fun kv => reads_back kv.2) props → Forall (fun kv => readable kv.2) props →
  props ≠ [] →
  ∀ done k0 stk b suffix,
    run {| stack := FObject done k0 :: stk; pmode := MKey b; result := None |}
      (join [44] (member <$> props) ++ 125 :: suffix)
    = run (complete (JObject (define_all done props)) stk) suffix.
Proof.
  intros HP HR. revert HR.
  induction HP as [|[k e] l He _ IH]; intros HR Hne done k0 stk b suffix; [congruence|].
  inversion HR as [|? ? Hre Hrl]; subst. simpl in He, Hre.
  assert (Hkey : ∀ rest,
            run {| stack := FObject done k0 :: stk; pmode := MKey b; result := None |}
              (member (k, e) ++ rest)
            = run (value_state (FObject done k :: stk) false None)
                (JSON_stringify e ++ rest)).
  { intros rest. unfold member, quote. simpl fst. simpl snd.
    rewrite <- app_assoc. cbn [app run].
    change (step {| stack := FObject done k0 :: stk; pmode := MKey b; result := None |} 34)
      with (Some (in_string (FObject done k0 :: stk) true [])).
    cbn iota. rewrite run_app, steps_quoted. reflexivity. }
  destruct l as [|kv' l].
  - cbn [fmap list_fmap join]. rewrite Hkey.
    rewrite (He Hre) by (right; right; left; reflexivity).
    cbn [run]. rewrite step_complete. reflexivity.
  - change (join [44] (member <$> (k, e) :: kv' :: l))
      with (member (k, e) ++ [44] ++ join [44] (member <$> kv' :: l)).
    rewrite <- !app_assoc. rewrite Hkey.
    rewrite (He Hre) by (left; reflexivity).
    cbn [run app]. rewrite step_complete.
    cbn [complete step_after is_json_space]. cbn.
    rewrite (IH Hrl) by discriminate. reflexivity.
Qed.

(** The parser reads a readable value back from its text, wherever in a
    text the value stands. *)
Lemma read_back (v : JSValue) : reads_back v.
Proof.
  induction v as [|bv|x|s|elems IH|props IH] using JSValue_induction;
    intros Hr stk b r suffix Hs.
  - reflexivity.
  - destruct bv; reflexivity.
  - destruct Hr as (Hf & s & a & Hacc & Hval & Hsteps).
    simpl. rewrite Hf, run_app, Hsteps.
    destruct suffix as [|c rest].
    + cbn [run]. rewrite <- Hval. by apply finish_number.
    + simpl in Hs. cbn [run]. unfold step at 1. simpl.
      rewrite (num_next_delimiter _ _ _ Hs), Hacc, Hval.
      rewrite step_complete. reflexivity.
  - change (JSON_stringify (JString s)) with (34 :: quote_units s ++ [34]).
    cbn [app run].
    change (step (value_state stk b r) 34) with (Some (in_string stk false [])).
    cbn iota. rewrite run_app, steps_quoted. reflexivity.
  - rewrite stringify_array. apply readable_array in Hr.
    cbn [app run].
    change (step (value_state stk b r) 91)
      with (Some {| stack := FArray [] :: stk; pmode := MValue true; result := None |}).
    cbn iota. destruct elems as [|e l].
    + reflexivity.
    + rewrite <- app_assoc. cbn [app].
      rewrite (reads_back_elements (e :: l)) by (assumption || discriminate).
      reflexivity.
  - rewrite stringify_object. apply readable_object in Hr as [Hd Hr].
    cbn [app run].
    change (step (value_state stk b r) 123)
      with (Some {| stack := FObject [] [] :: stk; pmode := MKey true; result := None |}).
    cbn iota. destruct props as [|kv l].
    + reflexivity.
    + rewrite <- app_assoc. cbn [app].
      rewrite (reads_back_members (kv :: l)) by (assumption || discriminate).
      rewrite Hd. reflexivity.
Qed.

(** [JSON.parse] returns a readable value from the text that
    [JSON.stringify] writes for it, with or without a newline after it. *)
Lemma JSON_parse_stringify (v : JSValue) :
  readable v →
  JSON_parse (JSON_stringify v) = Some v
  ∧ JSON_parse (JSON_stringify v ++ [10]) = Some v.
Proof.
  intros Hr. unfold JSON_parse. split.
  - rewrite <- (app_nil_r (JSON_stringify v)).
    change start_state with (value_state [] false None).
    rewrite (read_back v Hr) by exact I. reflexivity.
  - change start_state with (value_state [] false None).
    rewrite (read_back v Hr) by (right; right; right; reflexivity). reflexivity.
Qed.

End ReadBack.

(** ** The texts of the server, read *)

Section Responses.
Import Server Client.

(** The codes of the errors are numbers that are read back. *)
Lemma number_readable_code (code : Z) :
  code = (-32601)%Z ∨ code = (-32001)%Z ∨ code = (-32002)%Z ∨ code = (-32003)%Z →
  number_readable (number_of_Z code).
Proof.
  intros [-> | [-> | [-> | ->]]]; (split; [reflexivity|]).
  - exists NInt, (num_start true 32601). repeat split.
  - exists NInt, (num_start true 32001). repeat split.
  - exists NInt, (num_start true 32002). repeat split.
  - exists NInt, (num_start true 32003). repeat split.
Qed.

Lemma readable_strings (l : list jsstring) : readable (strings l).
Proof.
  apply readable_array. unfold strings.
  induction l as [|x l IH]; constructor; [exact I | exact IH].
Qed.

Lemma readable_error_object (v : JSValue) (message : jsstring) :
  readable v → readable (error_object v message).
Proof.
  intros Hv. unfold error_object. cbn [readable].
  split; [reflexivity|]. split; [exact I|]. split; [exact Hv|].
  split; [|exact I]. split; [reflexivity|].
  split; [apply number_readable_code; auto | split; exact I].
Qed.

Lemma readable_error_message (code : Z) (message : string)
    (data : list (jsstring * JSValue)) :
  code = (-32601)%Z ∨ code = (-32001)%Z ∨ code = (-32002)%Z ∨ code = (-32003)%Z →
  readable (JObject data) →
  readable (error_message code message data).
Proof.
  intros Hc Hd. unfold error_message. cbn [readable].
  split; [reflexivity|]. split; [exact I|]. split; [|exact I].
  split; [reflexivity|].
  split; [apply number_readable_code; exact Hc|]. split; [exact I|].
  split; [exact Hd | exact I].
Qed.

(** The object the server answers an accepted token with. *)
Lemma authenticated_text (payload : JWTPayload) :
  ∃ props, readable (JObject props)
           ∧ authenticated payload = JSON_stringify (JObject props)
           ∧ authenticated_result (JObject props) = true
           ∧ is_authentication_response (JObject props) = true.
Proof.
  unfold authenticated. eexists. split; [|split; [reflexivity|]].
  - cbn [readable]. split; [reflexivity|]. split; [exact I|]. split; [|exact I].
    destruct (user payload) as [u|]; cbn [app].
    + split; [reflexivity|]. split; [exact I|]. split; [exact I|].
      split; [apply readable_strings | exact I].
    + split; [reflexivity|]. split; [exact I|].
      split; [apply readable_strings | exact I].
  - split; reflexivity.
Qed.

(** The objects the server answers a token with that it does not accept. *)
Lemma rejection_text (reply : jsstring) :
  reply = authentication_failed
  ∨ (∃ required payload, reply = insufficient_roles required payload) →
  ∃ props, readable (JObject props)
           ∧ reply = JSON_stringify (JObject props)
           ∧ authenticated_result (JObject props) = false
           ∧ is_authentication_response (JObject props) = false.
Proof.
  intros [-> | (required & payload & ->)].
  - unfold authentication_failed, error_message. eexists.
    split; [|split; [reflexivity | split; reflexivity]].
    apply (readable_error_message (-32002)); [auto|].
    cbn [readable]. split; [reflexivity|]. split; exact I.
  - unfold insufficient_roles, error_message. eexists.
    split; [|split; [reflexivity | split; reflexivity]].
    apply (readable_error_message (-32001)); [auto|].
    cbn [readable]. split; [reflexivity|].
    split; [apply readable_strings|]. split; [apply readable_strings | exact I].
Qed.

Lemma trim_start_spaces (ws rest : jsstring) :
  Forall (fun c => is_trim_space c = true) ws →
  trim_start (ws ++ rest) = trim_start rest.
Proof.
  induction 1 as [|c ws Hc _ IH]; [reflexivity|].
  simpl. rewrite Hc. exact IH.
Qed.

(** [trim] takes the white space after a text that begins and ends with
    something else. *)
Lemma trim_framed (a z : N) (mid ws : jsstring) :
  is_trim_space a = false → is_trim_space z = false →
  Forall (fun c => is_trim_space c = true) ws →
  trim ((a :: mid ++ [z]) ++ ws) = a :: mid ++ [z].
Proof.
  intros Ha Hz Hws. unfold trim.
  assert (E : trim_start ((a :: mid ++ [z]) ++ ws) = (a :: mid ++ [z]) ++ ws)
    by (simpl; rewrite Ha; reflexivity).
  rewrite E, rev_app_distr.
  rewrite trim_start_spaces by (apply List.Forall_rev, Hws).
  simpl rev at 1. rewrite rev_app_distr. simpl. rewrite Hz.
  simpl. rewrite rev_app_distr, rev_involutive. reflexivity.
Qed.

(** A text without a line feed is one line. *)
Lemma split_newline_line (s : jsstring) :
  Forall printable s → split_newline s = [s].
Proof.
  induction 1 as [|c s Hc _ IH]; [reflexivity|].
  simpl. rewrite IH. unfold printable in Hc.
  destruct (N.eqb_spec c 10); [lia | reflexivity].
Qed.

(** The text of an object, trimmed. *)
Lemma trim_object_text (props : list (jsstring * JSValue)) (ws : jsstring) :
  Forall (fun c => is_trim_space c = true) ws →
  trim (JSON_stringify (JObject props) ++ ws) = JSON_stringify (JObject props).
Proof.
  intros Hws. rewrite stringify_object.
  apply (trim_framed 123 125 _ ws); [reflexivity | reflexivity | exact Hws].
Qed.

(** What the three listeners of the client make of the text of a
    readable object, alone in a chunk. *)
Lemma reply_accepted_object (props : list (jsstring * JSValue)) (ws : jsstring)
    (data : Buffer) :
  readable (JObject props) →
  Forall (fun c => is_trim_space c = true) ws →
  Buffer_toString data = JSON_stringify (JObject props) ++ ws →
  reply_accepted data = authenticated_result (JObject props).
Proof.
  intros Hr Hws Hd. unfold reply_accepted. rewrite Hd, trim_object_text by exact Hws.
  destruct (JSON_parse_stringify _ Hr) as [-> _]. reflexivity.
Qed.

Lemma tcp_stdout_object (props : list (jsstring * JSValue)) (data : Buffer) :
  readable (JObject props) →
  Buffer_toString data = JSON_stringify (JObject props) ++ [10] →
  tcp_stdout data
  = if is_authentication_response (JObject props) then None
    else Some (JSON_stringify (JObject props) ++ [10]).
Proof.
  intros Hr Hd. unfold tcp_stdout. rewrite Hd.
  rewrite trim_object_text by (repeat constructor).
  rewrite split_newline_line by apply printable_stringify.
  destruct (JSON_parse_stringify _ Hr) as [Hp _].
  cbn [filter_lines]. rewrite (JSON_parse_trim _ _ Hp). unfold skipped. rewrite Hp.
  cbn [negb app].
  destruct (is_authentication_response (JObject props)); [reflexivity|].
  rewrite stringify_object. reflexivity.
Qed.

Lemma ws_stdout_object (props : list (jsstring * JSValue)) (ws : jsstring)
    (msg : Buffer) :
  readable (JObject props) →
  ws = [] ∨ ws = [10] →
  Buffer_toString msg = JSON_stringify (JObject props) ++ ws →
  ws_stdout msg
  = if is_authentication_response (JObject props) then None
    else Some (JSON_stringify (JObject props) ++ ws).
Proof.
  intros Hr Hws Hd. unfold ws_stdout, skipped. rewrite Hd.
  destruct (JSON_parse_stringify _ Hr) as [Hp Hp'].
  destruct Hws as [-> | ->]; [rewrite app_nil_r, Hp | rewrite Hp']; reflexivity.
Qed.

(** X11. The line [createErrorResponse] writes is JSON, and [JSON.parse]
    reads from it the error object with the identifier the response was
    made with, the code -32601 and the text of the message as it was
    given, whatever characters it is made of. The identifier is absent or
    a value that is read back. *)
Theorem createErrorResponse_parses (id : option JSValue) (message : jsstring) :
  match id with Some v => readable v | None => True end →
  JSON_parse (createErrorResponse id message)
  = Some (error_object
            match id with
            | Some v => if ToBoolean v then v else JNull
            | None => JNull
            end message).
Proof.
  intros Hid. unfold createErrorResponse.
  apply JSON_parse_stringify, readable_error_object.
  destruct id as [v|]; [destruct (ToBoolean v)|]; simpl; auto.
Qed.

Section Handshake.

Variable verifyJWTWithPayload : jsstring → jsstring → option JWTPayload.
Variable options : Options.
Variable config : option PermissionsConfig.

Let authenticate := authenticate verifyJWTWithPayload options config.

(** X12. The two sides of the handshake agree on a token the server
    accepts. When the reply of the server comes to the client as one
    chunk, over TCP with the line feed the server puts after it and over
    WebSocket as it is, the listener for the reply takes the connection
    for authenticated, and the listener that feeds the standard output
    writes nothing: the reply does not show among the MCP messages. *)
Theorem handshake_accepted (token : jsstring) (messageFilter : Buffer → FilterResult)
    (data msg : Buffer) :
  snd (authenticate token) = Some messageFilter →
  Buffer_toString data = fst (authenticate token) ++ [10] →
  Buffer_toString msg = fst (authenticate token) →
  (reply_accepted data = true ∧ tcp_stdout data = None)
  ∧ (reply_accepted msg = true ∧ ws_stdout msg = None).
Proof.
  intros Hf Hd Hm.
  assert (Hp : ∃ payload, fst (authenticate token) = authenticated payload).
  { revert Hf. unfold authenticate, Server.authenticate.
    destruct (verifyJWTWithPayload token (secret options)) as [payload|];
      [|discriminate].
    destruct (requiredRoles options) as [required|]; [|by exists payload].
    destruct (negb (hasRequiredRoles (roles payload) required));
      [discriminate | by exists payload]. }
  destruct Hp as (payload & Hp). rewrite Hp in Hd, Hm.
  destruct (authenticated_text payload) as (props & Hr & Ht & Ha & Hs).
  rewrite Ht in Hd, Hm. repeat split.
  - rewrite (reply_accepted_object props [10] data Hr); [exact Ha | | exact Hd].
    repeat constructor.
  - rewrite (tcp_stdout_object props data Hr Hd), Hs. reflexivity.
  - rewrite (reply_accepted_object props [] msg Hr); [exact Ha | constructor |].
    rewrite app_nil_r. exact Hm.
  - rewrite (ws_stdout_object props [] msg Hr); [rewrite Hs; reflexivity | by left |].
    rewrite app_nil_r. exact Hm.
Qed.

(** X13. They agree on a token the server does not accept as well: the
    listener for the reply does not take the connection for
    authenticated, and ends or closes it. The other listener writes the
    reply, the authentication failure or the insufficient roles, to the
    standard output, over TCP with a line feed after it. *)
Theorem handshake_rejected (token : jsstring) (data msg : Buffer) :
  snd (authenticate token) = None →
  Buffer_toString data = fst (authenticate token) ++ [10] →
  Buffer_toString msg = fst (authenticate token) →
  (reply_accepted data = false
   ∧ tcp_stdout data = Some (fst (authenticate token) ++ [10]))
  ∧ (reply_accepted msg = false
     ∧ ws_stdout msg = Some (fst (authenticate token))).
Proof.
  intros Hf Hd Hm.
  assert (Hp : fst (authenticate token) = authentication_failed
               ∨ ∃ required payload,
                   fst (authenticate token) = insufficient_roles required payload).
  { destruct (authenticate_rejected verifyJWTWithPayload options config token Hf)
      as [H | (payload & required & _ & _ & _ & H)]; [by left|].
    right. by exists required, payload. }
  destruct (rejection_text _ Hp) as (props & Hr & Ht & Ha & Hs).
  rewrite Ht in Hd, Hm. rewrite Ht. repeat split.
  - rewrite (reply_accepted_object props [10] data Hr); [exact Ha | | exact Hd].
    repeat constructor.
  - rewrite (tcp_stdout_object props data Hr Hd), Hs. reflexivity.
  - rewrite (reply_accepted_object props [] msg Hr); [exact Ha | constructor |].
    rewrite app_nil_r. exact Hm.
  - rewrite (ws_stdout_object props [] msg Hr); [| by left |].
    + rewrite Hs, app_nil_r. reflexivity.
    + rewrite app_nil_r. exact Hm.
Qed.

End Handshake.

(** X14. The response to a request the filter denies passes the client
    and is written to its standard output as the server wrote it, over
    either transport, when it comes as one chunk. The identifier is
    absent or a value that is read back. *)
Theorem permission_error_reaches_stdout (id : option JSValue) (message : jsstring)
    (data : Buffer) :
  match id with Some v => readable v | None => True end →
  Buffer_toString data = createErrorResponse id message →
  tcp_stdout data = Some (createErrorResponse id message)
  ∧ ws_stdout data = Some (createErrorResponse id message).
Proof.
  intros Hid. unfold createErrorResponse.
  set (v := match id with
            | Some v => if ToBoolean v then v else JNull
            | None => JNull
            end).
  assert (Hr : readable (error_object v message)).
  { apply readable_error_object. subst v.
    destruct id as [v|]; [destruct (ToBoolean v)|]; simpl; auto. }
  intros Hd. unfold error_object in *. split.
  - by rewrite (tcp_stdout_object _ data Hr Hd).
  - rewrite (ws_stdout_object _ [10] data Hr); [reflexivity | by right | exact Hd].
Qed.

End Responses.

(** The instance of X11 at the identifier 7 and a message with quotation
    marks and a line feed in it. *)
Lemma createErrorResponse_parses_witness :
  readable seven
  ∧ JSON_parse (createErrorResponse (Some seven) quoted_text)
    = Some (error_object seven quoted_text).
Proof.
  assert (H : readable seven).
  { split; [reflexivity|]. exists NInt, (num_start false 7). repeat split. }
  split; [exact H|].
  exact (createErrorResponse_parses (Some seven) quoted_text H).
Defined.

(** The instance of X12 at the token of alice. *)
Lemma handshake_accepted_witness :
  (snd (Server.authenticate accept_alice tcp_with_secret (Some section8)
          (lit "token-of-alice")) = Some user_filter
   ∧ Buffer_toString welcome_line
     = fst (Server.authenticate accept_alice tcp_with_secret (Some section8)
              (lit "token-of-alice")) ++ [10]
   ∧ Buffer_toString welcome_message
     = fst (Server.authenticate accept_alice tcp_with_secret (Some section8)
              (lit "token-of-alice")))
  ∧ (Client.reply_accepted welcome_line = true
     ∧ Client.tcp_stdout welcome_line = None)
  ∧ (Client.reply_accepted welcome_message = true
     ∧ Client.ws_stdout welcome_message = None).
Proof.
  assert (H1 : snd (Server.authenticate accept_alice tcp_with_secret (Some section8)
                      (lit "token-of-alice")) = Some user_filter) by reflexivity.
  assert (H2 : Buffer_toString welcome_line
               = fst (Server.authenticate accept_alice tcp_with_secret (Some section8)
                        (lit "token-of-alice")) ++ [10])
    by (vm_compute; reflexivity).
  assert (H3 : Buffer_toString welcome_message
               = fst (Server.authenticate accept_alice tcp_with_secret (Some section8)
                        (lit "token-of-alice")))
    by (vm_compute; reflexivity).
  split; [auto|].
  exact (handshake_accepted accept_alice tcp_with_secret (Some section8)
           (lit "token-of-alice") user_filter welcome_line welcome_message H1 H2 H3).
Defined.

(** The instance of X13 at a verifier that accepts no token. *)
Lemma handshake_rejected_witness :
  (snd (Server.authenticate reject_all tcp_with_secret (Some section8)
          (lit "no token")) = None
   ∧ Buffer_toString failure_line
     = fst (Server.authenticate reject_all tcp_with_secret (Some section8)
              (lit "no token")) ++ [10]
   ∧ Buffer_toString failure_message
     = fst (Server.authenticate reject_all tcp_with_secret (Some section8)
              (lit "no token")))
  ∧ (Client.reply_accepted failure_line = false
     ∧ Client.tcp_stdout failure_line = Some (Server.authentication_failed ++ [10]))
  ∧ (Client.reply_accepted failure_message = false
     ∧ Client.ws_stdout failure_message = Some Server.authentication_failed).
Proof.
  assert (H1 : snd (Server.authenticate reject_all tcp_with_secret (Some section8)
                      (lit "no token")) = None) by reflexivity.
  assert (H2 : Buffer_toString failure_line
               = fst (Server.authenticate reject_all tcp_with_secret (Some section8)
                        (lit "no token")) ++ [10])
    by (vm_compute; reflexivity).
  assert (H3 : Buffer_toString failure_message
               = fst (Server.authenticate reject_all tcp_with_secret (Some section8)
                        (lit "no token")))
    by (vm_compute; reflexivity).
  split; [auto|].
  exact (handshake_rejected reject_all tcp_with_secret (Some section8)
           (lit "no token") failure_line failure_message H1 H2 H3).
Defined.

(** The instance of X14 at the response of X11. *)
Lemma permission_error_reaches_stdout_witness :
  (readable seven
   ∧ Buffer_toString denial_chunk = createErrorResponse (Some seven) quoted_text)
  ∧ Client.tcp_stdout denial_chunk = Some (createErrorResponse (Some seven) quoted_text)
  ∧ Client.ws_stdout denial_chunk = Some (createErrorResponse (Some seven) quoted_text).
Proof.
  assert (H1 : readable seven).
  { split; [reflexivity|]. exists NInt, (num_start false 7). repeat split. }
  assert (H2 : Buffer_toString denial_chunk
               = createErrorResponse (Some seven) quoted_text)
    by (vm_compute; reflexivity).
  split; [auto|].
  exact (permission_error_reaches_stdout (Some seven) quoted_text denial_chunk H1 H2).
Defined.

(** ** The chunks of an authenticated session *)

(** What the filter returns when it allows a chunk. *)
Lemma createMessageFilter_allowed (rs : list jsstring)
    (config : option PermissionsConfig) (data : Buffer) :
  allowed (createMessageFilter rs config data) = true →
  createMessageFilter rs config data = pass data.
Proof.
  unfold createMessageFilter.
  destruct config as [c|]; [|reflexivity].
  destruct (parseMCPMessage (Buffer_toString data)) as [message|]; [|reflexivity].
  destruct (method message) as [m|]; [|reflexivity].
  destruct (negb (ToBoolean m)); [reflexivity|].
  destruct (negb (isMethodAllowed m rs c)); [discriminate | reflexivity].
Qed.

Section Streams.
Import Server.

Variable verifyJWTWithPayload : jsstring → jsstring → option JWTPayload.
Variable options : Options.
Variable config : option PermissionsConfig.

Let tcp_deliver := tcp_deliver verifyJWTWithPayload options config.
Let ws_deliver := ws_deliver verifyJWTWithPayload options config.



End Streams.



(** ** The configuration [generate-permissions] writes *)

Section Generated.



End Generated.

(** ** A server without a secret, and the token of the client *)

Section Unfiltered.
Import Server.

Local Open Scope Z_scope.

Variable verifyJWTWithPayload : jsstring → jsstring → option JWTPayload.
Variable options : Options.
Variable config : option PermissionsConfig.

Let authenticate := authenticate verifyJWTWithPayload options config.
Let tcp_data := tcp_data verifyJWTWithPayload options config.
Let ws_message := ws_message verifyJWTWithPayload options config.
Let tcp_deliver := tcp_deliver verifyJWTWithPayload options config.
Let ws_deliver := ws_deliver verifyJWTWithPayload options config.

(** X18. A server that was started without a secret, or with the empty
    one, filters nothing: whatever configuration of permissions it has
    loaded, every chunk of a connection is written to the subprocess as
    it came, over TCP and over WebSocket, and the peer is sent nothing
    by the listeners. *)
Theorem no_secret_no_filter (now : Z) (arrivals : list (Env * Buffer)) :
  optional_string_truthy (jwtSecret options) = false →
  tcp_deliver (tcp_state (tcp_connection options now)) arrivals
  = (TcpForwarding, flat_map (fun a => forward a.1 a.2) arrivals)
  ∧ ws_deliver (ws_connection options now) arrivals
    = (ws_connection options now, flat_map (fun a => forward a.1 a.2) arrivals).
Proof.
  intros Hs. unfold tcp_connection, ws_connection. rewrite Hs. cbn [tcp_state].
  unfold tcp_deliver, ws_deliver. split.
  - induction arrivals as [|[env data] rest IH]; [reflexivity|].
    cbn [Server.tcp_deliver Server.tcp_data flat_map]. rewrite IH. reflexivity.
  - induction arrivals as [|[env msg] rest IH]; [reflexivity|].
    cbn [Server.ws_deliver flat_map]. unfold Server.ws_message at 1.
    cbn [ws_state]. rewrite IH. reflexivity.
Qed.

Lemma trim_start_app (s t : jsstring) :
  trim_start s ≠ [] → trim_start (s ++ t) = trim_start s ++ t.
Proof.
  induction s as [|c s IH]; simpl; [congruence|].
  destruct (is_trim_space c); [exact IH | reflexivity].
Qed.

(** White space after a text is trimmed with the white space the text
    ends with. *)
Lemma trim_app_spaces (s ws : jsstring) :
  Forall (fun c => is_trim_space c = true) ws → trim (s ++ ws) = trim s.
Proof.
  intros Hws. unfold trim.
  destruct (trim_start s) as [|c t] eqn:E.
  - apply trim_start_nil in E.
    assert (E' : trim_start (s ++ ws) = []).
    { rewrite trim_start_spaces by exact E. clear -Hws.
      induction Hws as [|c ws Hc _ IH]; [reflexivity|]. simpl. by rewrite Hc. }
    rewrite E'. reflexivity.
  - rewrite trim_start_app by congruence. rewrite E, rev_app_distr.
    rewrite trim_start_spaces by (apply List.Forall_rev, Hws). reflexivity.
Qed.

(** X19. The server verifies the token of the client without the white
    space at its ends: the line feed the client puts after the token
    over TCP is taken off with it, and over both transports the server
    decides on the same text. *)
Theorem token_as_sent (jwtToken : jsstring) (env : Env) (s : WsSession)
    (data msg : Buffer) :
  Buffer_toString data = Client.tcp_hello jwtToken →
  Buffer_toString msg = Client.ws_hello jwtToken →
  ws_state s = WsAwaitToken →
  tcp_data env TcpAwaitToken data
  = match authenticate (trim jwtToken) with
    | (reply, Some messageFilter) =>
      (TcpFiltering messageFilter, [Send (reply ++ [10%N])])
    | (reply, None) => (TcpEnded, [Send (reply ++ [10%N]); EndSocket])
    end
  ∧ ws_message env s msg
    = match authenticate (trim jwtToken) with
      | (reply, Some messageFilter) =>
        ({| ws_state := WsFiltering messageFilter; authTimeout := None;
            ws_open := ws_open s |}, [Send reply])
      | (reply, None) =>
        ({| ws_state := WsAwaitToken; authTimeout := None; ws_open := false |},
         [Send reply; CloseSocket])
      end.
Proof.
  intros Hd Hm Hs. unfold tcp_data, ws_message, Server.tcp_data, Server.ws_message.
  rewrite Hs, Hd, Hm. unfold Client.tcp_hello, Client.ws_hello.
  rewrite trim_app_spaces by (repeat constructor). split; reflexivity.
Qed.

End Unfiltered.

(** The instance of X18 at a server without a secret that has loaded the
    configuration of section 8, which blocks [tools/call]. *)
Lemma no_secret_no_filter_witness :
  Server.optional_string_truthy (Server.jwtSecret open_server) = false
  ∧ snd (Server.tcp_deliver reject_all open_server (Some section8)
           (Server.tcp_state (Server.tcp_connection open_server 0))
           [(quiet, tools_call_chunk)])
    = [Server.WriteStdin tools_call_chunk]
  ∧ snd (Server.ws_deliver reject_all open_server (Some section8)
           (Server.ws_connection open_server 0) [(quiet, tools_call_chunk)])
    = [Server.WriteStdin tools_call_chunk].
Proof.
  assert (H : Server.optional_string_truthy (Server.jwtSecret open_server) = false)
    by reflexivity.
  split; [exact H|].
  destruct (no_secret_no_filter reject_all open_server (Some section8) 0
              [(quiet, tools_call_chunk)] H) as [-> ->].
  split; reflexivity.
Defined.

(** The instance of X19 at the token of alice. *)
Lemma token_as_sent_witness :
  (Buffer_toString alice_hello = Client.tcp_hello (lit "token-of-alice")
   ∧ Buffer_toString (buf "token-of-alice") = Client.ws_hello (lit "token-of-alice")
   ∧ Server.ws_state (Server.ws_connection ws_with_secret 0) = Server.WsAwaitToken)
  ∧ snd (Server.tcp_data accept_alice tcp_with_secret (Some section8) quiet
           Server.TcpAwaitToken alice_hello)
    = [Server.Send (Server.authenticated alice ++ [10])]
  ∧ snd (Server.ws_message accept_alice ws_with_secret (Some section8) quiet
           (Server.ws_connection ws_with_secret 0) (buf "token-of-alice"))
    = [Server.Send (Server.authenticated alice)].
Proof.
  assert (H1 : Buffer_toString alice_hello = Client.tcp_hello (lit "token-of-alice"))
    by (vm_compute; reflexivity).
  assert (H2 : Buffer_toString (buf "token-of-alice")
               = Client.ws_hello (lit "token-of-alice"))
    by (vm_compute; reflexivity).
  assert (H3 : Server.ws_state (Server.ws_connection ws_with_secret 0)
               = Server.WsAwaitToken) by reflexivity.
  split; [auto|].
  destruct (token_as_sent accept_alice tcp_with_secret (Some section8)
              (lit "token-of-alice") quiet (Server.ws_connection ws_with_secret 0)
              alice_hello (buf "token-of-alice") H1 H2 H3) as [-> _].
  destruct (token_as_sent accept_alice ws_with_secret (Some section8)
              (lit "token-of-alice") quiet (Server.ws_connection ws_with_secret 0)
              alice_hello (buf "token-of-alice") H1 H2 H3) as [_ ->].
  split; reflexivity.
Defined.

(** ** UTF-8: [toString] reads what [Buffer.from] writes *)

Section Utf8.

Lemma to_N_byte_of (n : N) : n < 256 → Byte.to_N (byte_of n) = n.
Proof.
  intros H. unfold byte_of. destruct (Byte.of_N n) as [b|] eqn:E.
  - simpl. by apply Byte.to_of_N.
  - apply Byte.of_N_None_iff in E. lia.
Qed.

Lemma split64 (x : N) : x = 64 * (x / 64) + x mod 64 ∧ x mod 64 < 64.
Proof. split; [apply N.div_mod; discriminate | apply N.mod_lt; discriminate]. Qed.

Lemma shiftr6 (x : N) : N.shiftr x 6 = x / 64.
Proof. apply N.shiftr_div_pow2. Qed.

Lemma shiftr12 (x : N) : N.shiftr x 12 = x / 64 / 64.
Proof. rewrite N.shiftr_div_pow2, N.Div0.div_div. reflexivity. Qed.

Lemma shiftr18 (x : N) : N.shiftr x 18 = x / 64 / 64 / 64.
Proof. rewrite N.shiftr_div_pow2, !N.Div0.div_div. reflexivity. Qed.

Lemma land63 (x : N) : N.land x 0x3F = x mod 64.
Proof. apply (N.land_ones x 6). Qed.

Lemma land_low (h q n : N) : q < 2 ^ n → N.land (h * 2 ^ n + q) (N.ones n) = q.
Proof.
  intros H. rewrite N.land_ones, N.add_comm, N.Div0.mod_add. by apply N.mod_small.
Qed.

Lemma land_lead2 (q : N) : q < 32 → N.land (0xC0 + q) 0x1F = q.
Proof. exact (land_low 6 q 5). Qed.

Lemma land_lead3 (q : N) : q < 16 → N.land (0xE0 + q) 0xF = q.
Proof. exact (land_low 14 q 4). Qed.

Lemma land_lead4 (q : N) : q < 8 → N.land (0xF0 + q) 0x7 = q.
Proof. exact (land_low 30 q 3). Qed.

Lemma land_continuation (r : N) : r < 64 → N.land (0x80 + r) 0x3F = r.
Proof. exact (land_low 2 r 6). Qed.

Lemma lor_shiftl_low (a r : N) : r < 64 → N.lor (N.shiftl a 6) r = a * 64 + r.
Proof.
  intros H. rewrite N.shiftl_mul_pow2.
  assert (L : N.land (a * 2 ^ 6) r = 0).
  { apply N.bits_inj_0. intros n. rewrite N.land_spec.
    destruct (N.lt_ge_cases n 6) as [Hn|Hn].
    - rewrite N.mul_pow2_bits_low by exact Hn. reflexivity.
    - destruct (N.eq_dec r 0) as [->|Hr]; [rewrite N.bits_0; apply andb_false_r|].
      rewrite (N.bits_above_log2 r n); [apply andb_false_r|].
      apply N.lt_le_trans with 6; [|exact Hn].
      apply N.log2_lt_pow2; [lia | exact H]. }
  rewrite <- N.lxor_lor by exact L. symmetry. by apply N.add_nocarry_lxor.
Qed.

Lemma utf8_start_1 (b : N) : b <= 0x7F → utf8_start b = ([b], None).
Proof. intros H. unfold utf8_start. by destruct (N.leb_spec b 0x7F); [|lia]. Qed.

Lemma utf8_start_2 (b : N) :
  0xC2 <= b <= 0xDF →
  utf8_start b
  = ([], Some {| u_needed := 1; u_cp := N.land b 0x1F;
                 u_lower := 0x80; u_upper := 0xBF |}).
Proof.
  intros H. unfold utf8_start.
  destruct (N.leb_spec b 0x7F); [lia|].
  destruct (N.leb_spec 0xC2 b); [|lia].
  destruct (N.leb_spec b 0xDF); [|lia]. reflexivity.
Qed.

Lemma utf8_start_3 (b : N) :
  0xE0 <= b <= 0xEF →
  utf8_start b
  = ([], Some {| u_needed := 2; u_cp := N.land b 0xF;
                 u_lower := if b =? 0xE0 then 0xA0 else 0x80;
                 u_upper := if b =? 0xED then 0x9F else 0xBF |}).
Proof.
  intros H. unfold utf8_start.
  destruct (N.leb_spec b 0x7F); [lia|].
  destruct (N.leb_spec 0xC2 b); [|lia].
  destruct (N.leb_spec b 0xDF); [lia|].
  destruct (N.leb_spec 0xE0 b); [|lia].
  destruct (N.leb_spec b 0xEF); [|lia]. reflexivity.
Qed.

Lemma utf8_start_4 (b : N) :
  0xF0 <= b <= 0xF4 →
  utf8_start b
  = ([], Some {| u_needed := 3; u_cp := N.land b 0x7;
                 u_lower := if b =? 0xF0 then 0x90 else 0x80;
                 u_upper := if b =? 0xF4 then 0x8F else 0xBF |}).
Proof.
  intros H. unfold utf8_start.
  destruct (N.leb_spec b 0x7F); [lia|].
  destruct (N.leb_spec 0xC2 b); [|lia].
  destruct (N.leb_spec b 0xDF); [lia|].
  destruct (N.leb_spec 0xE0 b); [|lia].
  destruct (N.leb_spec b 0xEF); [lia|].
  destruct (N.leb_spec 0xF0 b); [|lia].
  destruct (N.leb_spec b 0xF4); [|lia]. reflexivity.
Qed.

Lemma utf8_decode_start (b : N) (bs : list N) :
  utf8_decode None (b :: bs) = (utf8_start b).1 ++ utf8_decode (utf8_start b).2 bs.
Proof. cbn [utf8_decode]. destruct (utf8_start b). reflexivity. Qed.

(** A continuation byte in the range that is expected. *)
Lemma utf8_decode_continue (needed : nat) (acc lower upper r : N) (rest : list N) :
  r < 64 → lower <= 0x80 + r → 0x80 + r <= upper →
  utf8_decode (Some {| u_needed := needed; u_cp := acc;
                       u_lower := lower; u_upper := upper |}) ((0x80 + r) :: rest)
  = match needed with
    | 0%nat | 1%nat => utf16_encode (acc * 64 + r) ++ utf8_decode None rest
    | S n => utf8_decode (Some {| u_needed := n; u_cp := acc * 64 + r;
                                  u_lower := 0x80; u_upper := 0xBF |}) rest
    end.
Proof.
  intros Hr Hl Hu. cbn [utf8_decode u_lower u_upper u_needed u_cp].
  destruct (N.leb_spec lower (0x80 + r)); [|lia].
  destruct (N.leb_spec (0x80 + r) upper); [|lia].
  cbn [andb]. rewrite land_continuation, lor_shiftl_low by exact Hr. reflexivity.
Qed.

(** The bytes of a code point that is not a surrogate are decoded to the
    code units of the code point. *)
Lemma utf8_decode_encode (cp : N) (rest : list N) :
  cp < 0xD800 ∨ (0xE000 <= cp ∧ cp < 0x110000) →
  utf8_decode None ((Byte.to_N <$> utf8_encode cp) ++ rest)
  = utf16_encode cp ++ utf8_decode None rest.
Proof.
  intros Hcp. unfold utf8_encode.
  rewrite ?shiftr18, ?shiftr12, ?shiftr6, ?land63.
  pose proof (split64 cp) as [E1 L1].
  pose proof (split64 (cp / 64)) as [E2 L2].
  pose proof (split64 (cp / 64 / 64)) as [E3 L3].
  set (q1 := cp / 64) in *. set (r1 := cp mod 64) in *.
  set (q2 := q1 / 64) in *. set (r2 := q1 mod 64) in *.
  set (q3 := q2 / 64) in *. set (r3 := q2 mod 64) in *.
  clearbody q3 r3 q2 r2 q1 r1.
  destruct (N.ltb_spec cp 0x80) as [H1|H1];
    [|destruct (N.ltb_spec cp 0x800) as [H2|H2];
      [|destruct (N.ltb_spec cp 0x10000) as [H3|H3]]];
    cbn [fmap list_fmap app].
  - rewrite !to_N_byte_of by lia. rewrite utf8_decode_start, utf8_start_1 by lia. cbn [fst snd].
    unfold utf16_encode. destruct (N.ltb_spec cp 0x10000); [reflexivity | lia].
  - rewrite !to_N_byte_of by lia. rewrite utf8_decode_start, utf8_start_2 by lia. cbn [fst snd app].
    rewrite land_lead2 by lia.
    rewrite utf8_decode_continue by lia.
    replace (q1 * 64 + r1) with cp by lia. reflexivity.
  - rewrite !to_N_byte_of by lia. rewrite utf8_decode_start, utf8_start_3 by lia. cbn [fst snd app].
    rewrite land_lead3 by lia.
    rewrite utf8_decode_continue;
      [| lia
       | destruct (N.eqb_spec (0xE0 + q2) 0xE0); lia
       | destruct (N.eqb_spec (0xE0 + q2) 0xED); lia].
    rewrite utf8_decode_continue by lia.
    replace ((q2 * 64 + r2) * 64 + r1) with cp by lia.
    reflexivity.
  - rewrite !to_N_byte_of by lia. rewrite utf8_decode_start, utf8_start_4 by lia. cbn [fst snd app].
    rewrite land_lead4 by lia.
    rewrite utf8_decode_continue;
      [| lia
       | destruct (N.eqb_spec (0xF0 + q3) 0xF0); lia
       | destruct (N.eqb_spec (0xF0 + q3) 0xF4); lia].
    rewrite utf8_decode_continue by lia.
    rewrite utf8_decode_continue by lia.
    replace (((q3 * 64 + r3) * 64 + r2) * 64 + r1) with cp by lia.
    reflexivity.
Qed.

Lemma utf16_encode_pair (c d : N) :
  is_high_surrogate c = true → is_low_surrogate d = true →
  0x10000 + N.shiftl (c - 0xD800) 10 + (d - 0xDC00) < 0x110000
  ∧ utf16_encode (0x10000 + N.shiftl (c - 0xD800) 10 + (d - 0xDC00)) = [c; d].
Proof.
  unfold is_high_surrogate, is_low_surrogate.
  rewrite !andb_true_iff, !N.leb_le. intros [Hc1 Hc2] [Hd1 Hd2].
  rewrite N.shiftl_mul_pow2. change (2 ^ 10) with 1024.
  split; [lia|]. unfold utf16_encode.
  destruct (N.ltb_spec (0x10000 + (c - 0xD800) * 1024 + (d - 0xDC00)) 0x10000); [lia|].
  replace (0x10000 + (c - 0xD800) * 1024 + (d - 0xDC00) - 0x10000)
    with ((d - 0xDC00) + (c - 0xD800) * 1024) by lia.
  rewrite N.shiftr_div_pow2. change 0x3FF with (N.ones 10). rewrite N.land_ones.
  change (2 ^ 10) with 1024.
  rewrite N.div_add by discriminate. rewrite N.Div0.mod_add.
  rewrite N.div_small, N.mod_small by lia.
  f_equal; [lia | f_equal; lia].
Qed.

(** [toString] gives the string back from the bytes [Buffer.from] has
    made of it, when every surrogate in it is one of a pair. *)
Lemma Buffer_toString_from (s : jsstring) :
  well_formed s = true → Buffer_toString (Buffer_from s) = s.
Proof.
  unfold Buffer_toString.
  assert (H : ∀ n s, (length s <= n)%nat → well_formed s = true →
                utf8_decode None (Byte.to_N <$> Buffer_from s) = s).
  { clear s. induction n as [|n IH]; intros [|c s] Hl Hw; simpl in Hl;
      try reflexivity; try lia.
    cbn [well_formed Buffer_from] in *.
    destruct (is_high_surrogate c) eqn:Hh.
    - destruct s as [|d s]; [discriminate|].
      apply andb_true_iff in Hw as [Hd Hw]. rewrite Hd.
      destruct (utf16_encode_pair c d Hh Hd) as [Hlt He].
      rewrite fmap_app, utf8_decode_encode.
      + rewrite He, IH by (simpl in Hl; lia || exact Hw). reflexivity.
      + right. split; [|exact Hlt].
        rewrite N.shiftl_mul_pow2. lia.
    - apply andb_true_iff in Hw as [Hw Hs]. apply andb_true_iff in Hw as [Hlow Hc].
      apply negb_true_iff in Hlow. rewrite Hlow.
      apply N.ltb_lt in Hc.
      rewrite fmap_app, utf8_decode_encode.
      + rewrite IH by (lia || exact Hs). unfold utf16_encode.
        destruct (N.ltb_spec c 0x10000); [reflexivity | lia].
      + unfold is_high_surrogate, is_low_surrogate in Hh, Hlow.
        rewrite andb_false_iff, !N.leb_gt in Hh, Hlow. lia. }
  intros Hw. by apply (H (length s)).
Qed.

End Utf8.

Section TextMessages.
Import Server.

Variable verifyJWTWithPayload : jsstring → jsstring → option JWTPayload.
Variable options : Options.
Variable config : option PermissionsConfig.

Let ws_message := ws_message verifyJWTWithPayload options config.

(** X20. Decoding a WebSocket message and encoding it again, as the
    listener of an authenticated session does, changes nothing of a
    message that is the UTF-8 text of a string: the filter decides on the
    bytes that came, and when it allows them the subprocess is written
    these very bytes, whatever characters the text holds. *)
Theorem ws_text_forwarded (rs : list jsstring) (s : WsSession) (env : Env)
    (text : jsstring) :
  ws_state s = WsFiltering (createMessageFilter rs config) →
  stdin_writable env = true →
  well_formed text = true →
  allowed (createMessageFilter rs config (Buffer_from text)) = true →
  Buffer_from (Buffer_toString (Buffer_from text)) = Buffer_from text
  ∧ ws_message env s (Buffer_from text) = (s, [WriteStdin (Buffer_from text)]).
Proof.
  intros Hf Hs Hw Ha.
  assert (E : Buffer_from (Buffer_toString (Buffer_from text)) = Buffer_from text)
    by (by rewrite Buffer_toString_from).
  split; [exact E|].
  unfold ws_message, Server.ws_message. rewrite Hf, E.
  rewrite (createMessageFilter_allowed rs config _ Ha). unfold pass, forward. simpl.
  rewrite Hs. reflexivity.
Qed.

End TextMessages.

(** The instance of X20 at a request with characters of two, and of four
    bytes. *)
Lemma ws_text_forwarded_witness :
  (Server.ws_state user_session = Server.WsFiltering user_filter
   ∧ Server.stdin_writable quiet = true
   ∧ well_formed accented_request = true
   ∧ allowed (user_filter (Buffer_from accented_request)) = true)
  ∧ Buffer_from (Buffer_toString (Buffer_from accented_request))
    = Buffer_from accented_request
  ∧ Server.ws_message reject_all ws_with_secret (Some section8) quiet user_session
      (Buffer_from accented_request)
    = (user_session, [Server.WriteStdin (Buffer_from accented_request)]).
Proof.
  assert (H1 : Server.ws_state user_session = Server.WsFiltering user_filter)
    by reflexivity.
  assert (H2 : Server.stdin_writable quiet = true) by reflexivity.
  assert (H3 : well_formed accented_request = true) by (vm_compute; reflexivity).
  assert (H4 : allowed (user_filter (Buffer_from accented_request)) = true)
    by (vm_compute; reflexivity).
  split; [auto|].
  exact (ws_text_forwarded reject_all ws_with_secret (Some section8) [lit "user"]
           user_session quiet accented_request H1 H2 H3 H4).
Defined.

(** ** [calculateBackoffDelay] *)

Section Backoff.

Local Open Scope Z_scope.

(** X21. The delays of the reconnection attempts: every delay is
    positive and at most 30000 ms, the delay never goes down from one
    attempt to the next, it doubles as long as the double is not above
    30000, and from the attempt 15 on it is 30000 whatever the initial
    delay is; with the initial delay left out, from the attempt 5 on. *)
Theorem calculateBackoffDelay_schedule (attempt : N) (initialDelay : option positive) :
  let delay n := Utils.calculateBackoffDelay n initialDelay in
  0 < delay attempt <= 30000
  ∧ delay attempt <= delay (attempt + 1)%N
  ∧ (2 * delay attempt <= 30000 → delay (attempt + 1)%N = 2 * delay attempt)
  ∧ ((15 <= attempt)%N → delay attempt = 30000)
  ∧ (initialDelay = None → (5 <= attempt)%N → delay attempt = 30000).
Proof.
  intros delay. unfold delay, Utils.calculateBackoffDelay.
  set (d := Z.pos (default 1000%positive initialDelay)).
  assert (Hd : 0 < d) by (unfold d; lia).
  rewrite N2Z.inj_add, Z.pow_add_r by lia. change (2 ^ Z.of_N 1) with 2.
  assert (Hp : 0 < 2 ^ Z.of_N attempt) by (apply Z.pow_pos_nonneg; lia).
  assert (Hm : ∀ k : N, (k <= attempt)%N → 2 ^ Z.of_N k <= 2 ^ Z.of_N attempt)
    by (intros k Hk; apply Z.pow_le_mono_r; lia).
  repeat split.
  - apply Z.min_glb_lt; nia.
  - apply Z.le_min_r.
  - apply Z.min_le_compat_r. nia.
  - intros H. rewrite (Z.min_l (d * 2 ^ Z.of_N attempt)) in * by lia. lia.
  - intros H. specialize (Hm 15%N H). change (2 ^ Z.of_N 15) with 32768 in Hm.
    apply Z.min_r. nia.
  - intros -> H. specialize (Hm 5%N H). change (2 ^ Z.of_N 5) with 32 in Hm.
    unfold d. simpl. apply Z.min_r. lia.
Qed.

End Backoff.

(** The instance of X21 at the third attempt with the initial delay left
    out, after which the delay, 8000 ms, doubles once more. *)
Lemma calculateBackoffDelay_schedule_witness :
  (2 * Utils.calculateBackoffDelay 3 None <= 30000)%Z
  ∧ Utils.calculateBackoffDelay 3 None = 8000%Z
  ∧ Utils.calculateBackoffDelay 4 None = 16000%Z
  ∧ Utils.calculateBackoffDelay 5 None = 30000%Z.
Proof.
  assert (H : (2 * Utils.calculateBackoffDelay 3 None <= 30000)%Z)
    by (vm_compute; discriminate).
  split; [exact H|].
  destruct (calculateBackoffDelay_schedule 3 None) as (_ & _ & H1 & _ & _).
  destruct (calculateBackoffDelay_schedule 5 None) as (_ & _ & _ & _ & H2).
  split; [reflexivity|]. split; [exact (H1 H) | apply H2; [reflexivity | discriminate]].
Defined.

(** ** [parseArgs] *)

Section CommandLine.
Import CLI.

Variable parseInt : option jsstring → number.
Variable DEBUG : option jsstring.

Let parseArgs := parseArgs parseInt DEBUG.
Let options_of := options_of parseInt DEBUG.

Lemma indexOf_app (before rest : list jsstring) (x : jsstring) :
  x ∉ before →
  indexOf (before ++ rest) x = (fun i => (length before + i)%nat) <$> indexOf rest x.
Proof.
  induction before as [|a before IH]; intros Hx; simpl.
  - by destruct (indexOf rest x).
  - apply not_elem_of_cons in Hx as [Hne Hx]. unfold jsstring_eqb.
    rewrite bool_decide_eq_false_2 by congruence.
    rewrite IH by exact Hx. by destruct (indexOf rest x).
Qed.

Lemma indexOf_first (before rest : list jsstring) (x : jsstring) :
  x ∉ before → indexOf (before ++ x :: rest) x = Some (length before).
Proof.
  intros Hx. rewrite indexOf_app by exact Hx. simpl. unfold jsstring_eqb.
  rewrite bool_decide_eq_true_2 by reflexivity. simpl. f_equal. lia.
Qed.

(** What is returned to be run was made by [options_of]. *)
Lemma parseArgs_run (args : list jsstring) (o : Options) :
  parseArgs args = Run o →
  ∃ protocol, o = options_of (mode o) protocol args (requiredRoles o)
              ∧ match requiredRoles o with
                | Some required => ∃ roles, required = split_comma roles
                | None => True
                end.
Proof.
  unfold parseArgs, CLI.parseArgs. destruct args as [|arg0 rest]; [discriminate|].
  destruct (jsstring_eqb arg0 (lit "generate-secret")); [discriminate|].
  destruct (jsstring_eqb arg0 (lit "generate-token")); [discriminate|].
  destruct (jsstring_eqb arg0 (lit "generate-permissions")); [discriminate|].
  destruct rest as [|protocol rest]; [discriminate|].
  set (args := arg0 :: protocol :: rest).
  destruct (if jsstring_eqb arg0 (lit "server") then Some server
            else if jsstring_eqb arg0 (lit "client") then Some client
            else None) as [m|]; [|discriminate].
  destruct (negb (is_flag_set args "--port")
            || (match m with server => true | client => false end
                && negb (is_flag_set args "--"))); [discriminate|].
  destruct (indexOf args (lit "--require-roles")) as [i|].
  - destruct (args !! S i) as [roles|]; [|discriminate].
    intros [= <-]. exists protocol. split; [reflexivity|]. by exists roles.
  - intros [= <-]. exists protocol. split; reflexivity.
Qed.

(** X22. The command of a server and its arguments are what follows
    the first [--] of the command line. And the options of the proxy
    are looked for in the whole command line: one that is not given
    before the [--] is taken from the arguments of the command, when one
    of them is named like it. *)
Theorem parseArgs_command_line (before cmdline : list jsstring) (o : Options) :
  lit "--" ∉ before →
  parseArgs (before ++ lit "--" :: cmdline) = Run o →
  mode o = server →
  command o = head cmdline
  ∧ args o = tail cmdline
  ∧ (lit "--jwt-secret" ∉ before →
     jwtSecret o = value_after cmdline "--jwt-secret")
  ∧ (lit "--permissions-config" ∉ before →
     permissionsConfig o = value_after cmdline "--permissions-config").
Proof.
  intros Hb Hp Hm. apply parseArgs_run in Hp as (protocol & -> & _).
  unfold options_of, CLI.options_of in *. cbn [mode] in Hm.
  cbn [command args jwtSecret permissionsConfig mode]. rewrite Hm.
  rewrite indexOf_first by exact Hb.
  assert (Hv : ∀ flag : string,
             lit flag ∉ before → lit flag ≠ lit "--" →
             value_after (before ++ lit "--" :: cmdline) flag
             = value_after cmdline flag).
  { intros flag Hf Hne. unfold value_after. rewrite indexOf_app by exact Hf.
    simpl indexOf at 1. unfold jsstring_eqb at 1.
    rewrite bool_decide_eq_false_2 by congruence.
    destruct (indexOf cmdline (lit flag)) as [i|]; [|reflexivity]. simpl.
    replace (S (length before + S i)) with (length before + S (S i))%nat by lia.
    rewrite lookup_app_r by lia.
    replace (length before + S (S i) - length before)%nat with (S (S i)) by lia.
    reflexivity. }
  repeat split.
  - replace (S (length before)) with (length before + 1)%nat by lia.
    rewrite lookup_app_r by lia.
    replace (length before + 1 - length before)%nat with 1%nat by lia.
    by destruct cmdline.
  - replace (S (S (length before))) with (length before + 2)%nat by lia.
    rewrite drop_app_add'; [|reflexivity]. by destruct cmdline.
  - intros Hf. by apply Hv.
  - intros Hf. by apply Hv.
Qed.

(** X23. The roles a server requires, when they come from the command
    line, are never the empty list: [--require-roles] with the empty
    string requires the role of the empty name. So a token without
    roles, or with the empty list of them, never has the required roles
    of a server that was started with [--require-roles]. *)
Theorem parseArgs_required_roles (args : list jsstring) (o : Options)
    (required : list jsstring) :
  parseArgs args = Run o →
  requiredRoles o = Some required →
  required ≠ []
  ∧ hasRequiredRoles None required = false
  ∧ hasRequiredRoles (Some []) required = false.
Proof.
  intros Hp Hr. apply parseArgs_run in Hp as (protocol & _ & H).
  rewrite Hr in H. destruct H as (roles & ->).
  assert (Hne : split_comma roles ≠ []).
  { destruct roles as [|c roles]; simpl; [discriminate|].
    destruct (c =? 44); [discriminate|]. by destruct (split_comma roles). }
  split; [exact Hne|]. by destruct (split_comma roles).
Qed.

Lemma indexOf_Some (l : list jsstring) (x : jsstring) (i : nat) :
  indexOf l x = Some i →
  ∃ before rest, l = before ++ x :: rest ∧ (x ∉ before) ∧ length before = i.
Proof.
  revert i. induction l as [|a l IH]; intros i; simpl; [discriminate|].
  unfold jsstring_eqb. case_bool_decide as Ha.
  - intros [= <-]. subst a. exists [], l. split; [reflexivity|].
    split; [apply not_elem_of_nil | reflexivity].
  - destruct (indexOf l x) as [j|]; [|discriminate]. intros [= <-].
    destruct (IH j eq_refl) as (before & rest & -> & Hx & <-).
    exists (a :: before), rest. split; [reflexivity|].
    split; [|reflexivity]. apply not_elem_of_cons. split; [congruence | exact Hx].
Qed.

Lemma is_flag_set_elem (l : list jsstring) (flag : string) :
  is_flag_set l flag = true ↔ lit flag ∈ l.
Proof.
  unfold is_flag_set. destruct (indexOf l (lit flag)) as [i|] eqn:E.
  - apply indexOf_Some in E as (before & rest & -> & _ & _).
    split; [intros _ | reflexivity]. apply elem_of_app. right. left.
  - split; [discriminate|]. intros H. exfalso.
    apply list_elem_of_split in H as (before & rest & ->).
    clear -E. induction before as [|a before IH]; simpl in E.
    + unfold jsstring_eqb in E. by rewrite bool_decide_eq_true_2 in E.
    + destruct (jsstring_eqb a (lit flag)); [discriminate|].
      destruct (indexOf (before ++ lit flag :: rest) (lit flag)); [discriminate|].
      by apply IH.
Qed.

(** X28. When [parseArgs] gives up. It prints the usage and exits with
    the status 1 exactly when the first argument is none of the
    [generate] commands and there are fewer than two arguments, or the
    first is neither [server] nor [client], or [--port] is nowhere on
    the command line, or it is a server and there is no [--]. And it
    throws, instead of returning, only when [--require-roles] is the
    last argument, with nothing after it to split. *)
Theorem parseArgs_failures (args : list jsstring) :
  (parseArgs args = Exit 1
   ↔ (head args ≠ Some (lit "generate-secret")
      ∧ head args ≠ Some (lit "generate-token")
      ∧ head args ≠ Some (lit "generate-permissions"))
     ∧ ((length args < 2)%nat
        ∨ (head args ≠ Some (lit "server") ∧ head args ≠ Some (lit "client"))
        ∨ (lit "--port" ∉ args)
        ∨ (head args = Some (lit "server") ∧ lit "--" ∉ args)))
  ∧ (parseArgs args = TypeError →
     ∃ before, args = before ++ [lit "--require-roles"]
               ∧ (lit "--require-roles" ∉ before)).
Proof.
  unfold parseArgs, CLI.parseArgs. destruct args as [|arg0 rest].
  { split; [|discriminate]. split; [|reflexivity]. intros _.
    split; [repeat split; discriminate | left; simpl; lia]. }
  cbn [head]. unfold jsstring_eqb.
  case_bool_decide as G1.
  { split; [|discriminate]. split; [discriminate|]. intros [(H & _ & _) _]. congruence. }
  case_bool_decide as G2.
  { split; [|discriminate]. split; [discriminate|]. intros [(_ & H & _) _]. congruence. }
  case_bool_decide as G3.
  { split; [|discriminate]. split; [discriminate|]. intros [(_ & _ & H) _]. congruence. }
  assert (HG : Some arg0 ≠ Some (lit "generate-secret")
               ∧ Some arg0 ≠ Some (lit "generate-token")
               ∧ Some arg0 ≠ Some (lit "generate-permissions"))
    by (repeat split; congruence).
  destruct rest as [|protocol rest].
  { cbn iota. split; [|discriminate]. split; [intros _ | reflexivity].
    split; [exact HG | left; simpl; lia]. }
  set (args := arg0 :: protocol :: rest).
  pose proof (is_flag_set_elem args "--port") as Hport.
  pose proof (is_flag_set_elem args "--") as Hsep.
  case_bool_decide as M1; [|case_bool_decide as M2].
  - (* a server *)
    destruct (is_flag_set args "--port") eqn:Ep; cbn [negb orb andb].
    + destruct (is_flag_set args "--") eqn:Es; cbn [negb orb andb].
      * split.
        -- split.
           ++ destruct (indexOf args (lit "--require-roles")) as [i|];
                [destruct (args !! S i)|]; discriminate.
           ++ intros [_ [H | [[H _] | [H | [_ H]]]]].
              ** simpl in H. lia.
              ** congruence.
              ** exfalso. apply H, Hport. reflexivity.
              ** exfalso. apply H, Hsep. reflexivity.
        -- destruct (indexOf args (lit "--require-roles")) as [i|] eqn:Ei;
             [|discriminate].
           destruct (args !! S i) eqn:El; [discriminate|]. intros _.
           apply indexOf_Some in Ei as (before & after & E & Hb & <-).
           exists before. split; [|exact Hb]. rewrite E in El |- *.
           destruct after as [|a after]; [reflexivity|]. exfalso.
           replace (S (length before)) with (length before + 1)%nat in El by lia.
           rewrite lookup_app_r in El by lia.
           replace (length before + 1 - length before)%nat with 1%nat in El by lia.
           discriminate.
      * split; [|discriminate]. split; [intros _ | reflexivity].
        split; [exact HG|]. right. right. right. split; [congruence|].
        intros H. apply Hsep in H. congruence.
    + split; [|discriminate]. split; [intros _ | reflexivity].
      split; [exact HG|]. right. right. left.
      intros H. apply Hport in H. congruence.
  - (* a client *)
    destruct (is_flag_set args "--port") eqn:Ep; cbn [negb orb andb].
    + split.
      * split.
        -- destruct (indexOf args (lit "--require-roles")) as [i|];
             [destruct (args !! S i)|]; discriminate.
        -- intros [_ [H | [[_ H] | [H | [H _]]]]].
           ++ simpl in H. lia.
           ++ congruence.
           ++ exfalso. apply H, Hport. reflexivity.
           ++ congruence.
      * destruct (indexOf args (lit "--require-roles")) as [i|] eqn:Ei;
          [|discriminate].
        destruct (args !! S i) eqn:El; [discriminate|]. intros _.
        apply indexOf_Some in Ei as (before & after & E & Hb & <-).
        exists before. split; [|exact Hb]. rewrite E in El |- *.
        destruct after as [|a after]; [reflexivity|]. exfalso.
        replace (S (length before)) with (length before + 1)%nat in El by lia.
        rewrite lookup_app_r in El by lia.
        replace (length before + 1 - length before)%nat with 1%nat in El by lia.
        discriminate.
    + split; [|discriminate]. split; [intros _ | reflexivity].
      split; [exact HG|]. right. right. left.
      intros H. apply Hport in H. congruence.
  - (* neither *)
    split; [|discriminate]. split; [intros _ | reflexivity].
    split; [exact HG|]. right. left. split; congruence.
Qed.

End CommandLine.

(** The instance of X22 at a server whose command has an option
    [--jwt-secret] of its own: the proxy takes it for its secret. *)
Lemma parseArgs_command_line_witness :
  ((lit "--" ∉ take 6 server_line)
   ∧ CLI.parseArgs parseInt_8080 None (take 6 server_line ++ lit "--" :: drop 7 server_line)
     = CLI.Run (CLI.options_of parseInt_8080 None CLI.server (lit "tcp") server_line
                  (Some [lit "admin"; lit "ops"]))
   ∧ lit "--jwt-secret" ∉ take 6 server_line)
  ∧ CLI.command (CLI.options_of parseInt_8080 None CLI.server (lit "tcp") server_line
                   (Some [lit "admin"; lit "ops"])) = Some (lit "node")
  ∧ CLI.args (CLI.options_of parseInt_8080 None CLI.server (lit "tcp") server_line
                (Some [lit "admin"; lit "ops"]))
    = [lit "mcp.js"; lit "--jwt-secret"; lit "x"]
  ∧ CLI.jwtSecret (CLI.options_of parseInt_8080 None CLI.server (lit "tcp") server_line
                     (Some [lit "admin"; lit "ops"])) = Some (lit "x").
Proof.
  assert (H1 : lit "--" ∉ take 6 server_line).
  { intros H. vm_compute in H. repeat (apply elem_of_cons in H as [H|H]; [discriminate|]).
    by apply elem_of_nil in H. }
  assert (H2 : CLI.parseArgs parseInt_8080 None
                 (take 6 server_line ++ lit "--" :: drop 7 server_line)
               = CLI.Run (CLI.options_of parseInt_8080 None CLI.server (lit "tcp")
                            server_line (Some [lit "admin"; lit "ops"])))
    by (vm_compute; reflexivity).
  assert (H3 : lit "--jwt-secret" ∉ take 6 server_line).
  { intros H. vm_compute in H. repeat (apply elem_of_cons in H as [H|H]; [discriminate|]).
    by apply elem_of_nil in H. }
  split; [auto|].
  destruct (parseArgs_command_line parseInt_8080 None (take 6 server_line)
              (drop 7 server_line) _ H1 H2 eq_refl) as (Hc & Ha & Hs & _).
  split; [exact Hc|]. split; [exact Ha|]. exact (Hs H3).
Defined.

(** The instance of X23 at the same command line. *)
Lemma parseArgs_required_roles_witness :
  (CLI.parseArgs parseInt_8080 None server_line
   = CLI.Run (CLI.options_of parseInt_8080 None CLI.server (lit "tcp") server_line
                (Some [lit "admin"; lit "ops"]))
   ∧ CLI.requiredRoles
       (CLI.options_of parseInt_8080 None CLI.server (lit "tcp") server_line
          (Some [lit "admin"; lit "ops"])) = Some [lit "admin"; lit "ops"])
  ∧ [lit "admin"; lit "ops"] ≠ []
  ∧ hasRequiredRoles None [lit "admin"; lit "ops"] = false
  ∧ hasRequiredRoles (Some []) [lit "admin"; lit "ops"] = false.
Proof.
  assert (H1 : CLI.parseArgs parseInt_8080 None server_line
               = CLI.Run (CLI.options_of parseInt_8080 None CLI.server (lit "tcp")
                            server_line (Some [lit "admin"; lit "ops"])))
    by (vm_compute; reflexivity).
  assert (H2 : CLI.requiredRoles
                 (CLI.options_of parseInt_8080 None CLI.server (lit "tcp") server_line
                    (Some [lit "admin"; lit "ops"])) = Some [lit "admin"; lit "ops"])
    by reflexivity.
  split; [auto|].
  exact (parseArgs_required_roles parseInt_8080 None server_line _ _ H1 H2).
Defined.

(** ** Roles without an entry, and the lines of the client *)

Section DefaultDeny.



(** X25. What the TCP client writes to the standard output for a chunk
    ends with a line feed, whether the chunk did or not: it never keeps
    the beginning of a message for the chunk that brings the rest. *)
Theorem tcp_stdout_line_feed (data : Buffer) (out : jsstring) :
  Client.tcp_stdout data = Some out → ∃ body, out = body ++ [10].
Proof.
  unfold Client.tcp_stdout.
  assert (H : ∀ lines acc,
             (acc = [] ∨ ∃ body, acc = body ++ [10]) →
             Client.filter_lines lines acc = []
             ∨ ∃ body, Client.filter_lines lines acc = body ++ [10]).
  { induction lines as [|line lines IH]; intros acc Hacc; [exact Hacc|].
    cbn [Client.filter_lines].
    destruct (negb (string_truthy (trim line))); [by apply IH|].
    destruct (Client.skipped line); [by apply IH|].
    apply IH. right. exists (acc ++ line). by rewrite <- app_assoc. }
  destruct (H (split_newline (trim (Buffer_toString data))) []) as [-> | (body & ->)];
    [by left | discriminate |].
  destruct (string_truthy (body ++ [10])); [|discriminate].
  intros [= <-]. by exists body.
Qed.

End DefaultDeny.


(** The instance of X25 at the first half of a request, cut in the
    middle of a string. *)
Lemma tcp_stdout_line_feed_witness :
  Client.tcp_stdout (json_buf "{`jsonrpc`:`2.0`,`id`:1,`method`:`tools/")
  = Some (json "{`jsonrpc`:`2.0`,`id`:1,`method`:`tools/" ++ [10])
  ∧ ∃ body, json "{`jsonrpc`:`2.0`,`id`:1,`method`:`tools/" ++ [10] = body ++ [10].
Proof.
  assert (H : Client.tcp_stdout (json_buf "{`jsonrpc`:`2.0`,`id`:1,`method`:`tools/")
              = Some (json "{`jsonrpc`:`2.0`,`id`:1,`method`:`tools/" ++ [10]))
    by (vm_compute; reflexivity).
  split; [exact H|].
  exact (tcp_stdout_line_feed _ _ H).
Defined.

(** ** One TCP connection of the client *)

Section ClientConnection.
Import Client.

Variable jwtToken : option jsstring.

Let tcp_event := tcp_event jwtToken.
Let tcp_events := tcp_events jwtToken.

Lemma tcp_events_cons (c : TcpClient) (e : Event) (rest : list Event) :
  tcp_events c (e :: rest)
  = (fst (tcp_events (fst (tcp_event c e)) rest),
     snd (tcp_event c e) ++ snd (tcp_events (fst (tcp_event c e)) rest)).
Proof.
  unfold tcp_events, tcp_event. cbn [Client.tcp_events].
  destruct (Client.tcp_event jwtToken c e) as [c1 out1]. cbn [fst snd].
  by destruct (Client.tcp_events jwtToken c1 rest).
Qed.

Lemma tcp_events_app (c : TcpClient) (a b : list Event) :
  tcp_events c (a ++ b)
  = (fst (tcp_events (fst (tcp_events c a)) b),
     snd (tcp_events c a) ++ snd (tcp_events (fst (tcp_events c a)) b)).
Proof.
  revert c. induction a as [|e a IH]; intros c.
  - simpl. by destruct (tcp_events c b).
  - cbn [app]. rewrite !tcp_events_cons, IH. cbn [fst snd].
    by rewrite app_assoc.
Qed.

(** The standard input of a client that is not connected is queued. *)
Lemma tcp_events_queued (c : TcpClient) (chunks : list Buffer) :
  isConnected c = false →
  tcp_events c (StdinData <$> chunks)
  = ({| isConnected := false; awaitingReply := awaitingReply c;
        messageQueue := messageQueue c ++ (Buffer_toString <$> chunks) |}, []).
Proof.
  revert c. induction chunks as [|data chunks IH]; intros c Hc.
  - simpl. rewrite app_nil_r. destruct c. simpl in Hc. by subst.
  - cbn [fmap list_fmap]. rewrite tcp_events_cons.
    unfold tcp_event. cbn [Client.tcp_event]. rewrite Hc. cbn [fst snd].
    fold (@fmap list _ _ _ StdinData chunks).
    rewrite IH by reflexivity. simpl. by rewrite <- app_assoc.
Qed.

(** The standard input of a client that is connected is sent. *)
Lemma tcp_events_sent (c : TcpClient) (chunks : list Buffer) :
  isConnected c = true →
  tcp_events c (StdinData <$> chunks) = (c, SocketWrite <$> chunks).
Proof.
  intros Hc. induction chunks as [|data chunks IH]; [reflexivity|].
  cbn [fmap list_fmap]. rewrite tcp_events_cons.
  unfold tcp_event. cbn [Client.tcp_event]. rewrite Hc. cbn [fst snd].
  fold (@fmap list _ _ _ StdinData chunks). rewrite IH. reflexivity.
Qed.

(** The reply to the token, with the standard input before and after
    it. *)
Lemma tcp_events_reply (c : TcpClient) (after late : list Buffer) (reply : Buffer) :
  isConnected c = false →
  awaitingReply c = true →
  tcp_events c ((StdinData <$> after) ++ SocketData reply :: (StdinData <$> late))
  = if reply_accepted reply then
      ({| isConnected := true; awaitingReply := false; messageQueue := [] |},
       write_stdout reply
       ++ send_queued (messageQueue c ++ (Buffer_toString <$> after))
       ++ (SocketWrite <$> late))
    else
      ({| isConnected := false; awaitingReply := false;
          messageQueue := messageQueue c ++ (Buffer_toString <$> after)
                          ++ (Buffer_toString <$> late) |},
       write_stdout reply ++ [SocketEnd]).
Proof.
  intros Hc Ha.
  rewrite tcp_events_app, tcp_events_queued by exact Hc. cbn [fst snd app].
  rewrite tcp_events_cons. unfold tcp_event. cbn [Client.tcp_event awaitingReply].
  rewrite Ha. destruct (reply_accepted reply); cbn [fst snd messageQueue isConnected].
  - rewrite tcp_events_sent by reflexivity. cbn [fst snd].
    by rewrite <- app_assoc.
  - rewrite tcp_events_queued by reflexivity. cbn [fst snd messageQueue awaitingReply].
    by rewrite app_nil_r, <- app_assoc.
Qed.

End ClientConnection.

Section ClientQueue.
Import Client.

(** X26. The TCP client loses and reorders nothing of its standard
    input while it waits: what comes in before the connection is made
    and before the reply to the token is queued, and when the reply is
    one the client accepts, the queue is sent in the order in which it
    was filled, but for empty chunks, after the token and before
    anything that comes in later. The queued chunks are sent as the
    text they decode to, the later ones as they are. *)
Theorem tcp_client_sends_in_order (token : jsstring) (before after late : list Buffer)
    (reply : Buffer) :
  string_truthy token = true →
  reply_accepted reply = true →
  snd (tcp_events (Some token) connectTcp
         ((StdinData <$> before) ++ Connect :: (StdinData <$> after)
          ++ SocketData reply :: (StdinData <$> late)))
  = SocketWriteText (tcp_hello token)
    :: write_stdout reply
    ++ (SocketWriteText
          <$> List.filter string_truthy (Buffer_toString <$> (before ++ after)))
    ++ (SocketWrite <$> late).
Proof.
  intros Ht Hr.
  rewrite tcp_events_app, tcp_events_queued by reflexivity. cbn [fst snd app].
  rewrite tcp_events_cons. cbn [tcp_event]. rewrite Ht.
  cbn [fst snd isConnected awaitingReply messageQueue connectTcp app].
  rewrite tcp_events_reply by reflexivity. rewrite Hr.
  cbn [snd messageQueue]. unfold send_queued. by rewrite fmap_app.
Qed.

(** X27. When the reply is not one the client accepts, the client ends
    the socket and nothing of its standard input is sent, neither what
    was queued nor what comes in afterwards: all of it stays in the
    queue of the connection. *)
Theorem tcp_client_rejected (token : jsstring) (before after late : list Buffer)
    (reply : Buffer) :
  string_truthy token = true →
  reply_accepted reply = false →
  tcp_events (Some token) connectTcp
    ((StdinData <$> before) ++ Connect :: (StdinData <$> after)
     ++ SocketData reply :: (StdinData <$> late))
  = ({| isConnected := false; awaitingReply := false;
        messageQueue := Buffer_toString <$> (before ++ after ++ late) |},
     SocketWriteText (tcp_hello token) :: write_stdout reply ++ [SocketEnd]).
Proof.
  intros Ht Hr.
  rewrite tcp_events_app, tcp_events_queued by reflexivity. cbn [fst snd app].
  rewrite tcp_events_cons. cbn [tcp_event]. rewrite Ht.
  cbn [fst snd isConnected awaitingReply messageQueue connectTcp app].
  rewrite tcp_events_reply by reflexivity. rewrite Hr.
  cbn [fst snd messageQueue]. by rewrite !fmap_app.
Qed.

End ClientQueue.

(** The instance of X26 at the client of alice, with a chunk of the
    standard input before the connection is made, one before the reply
    and one after it. *)
Lemma tcp_client_sends_in_order_witness :
  (string_truthy (lit "token-of-alice") = true
   ∧ Client.reply_accepted welcome_line = true)
  ∧ snd (Client.tcp_events (Some (lit "token-of-alice")) Client.connectTcp
           ((Client.StdinData <$> [first_input]) ++ Client.Connect
            :: (Client.StdinData <$> [second_input])
            ++ Client.SocketData welcome_line :: (Client.StdinData <$> [result_chunk])))
    = [Client.SocketWriteText (lit "token-of-alice" ++ [10]);
       Client.SocketWriteText (accented_request ++ [10]);
       Client.SocketWriteText (Buffer_toString tools_call_chunk);
       Client.SocketWrite result_chunk].
Proof.
  assert (H1 : string_truthy (lit "token-of-alice") = true) by reflexivity.
  assert (H2 : Client.reply_accepted welcome_line = true) by (vm_compute; reflexivity).
  split; [auto|].
  rewrite (tcp_client_sends_in_order (lit "token-of-alice") [first_input]
             [second_input] [result_chunk] welcome_line H1 H2).
  vm_compute. reflexivity.
Defined.

(** The instance of X27 at a client the server turns away. *)
Lemma tcp_client_rejected_witness :
  (string_truthy (lit "no token") = true
   ∧ Client.reply_accepted failure_line = false)
  ∧ Client.tcp_events (Some (lit "no token")) Client.connectTcp
      ((Client.StdinData <$> [first_input]) ++ Client.Connect
       :: (Client.StdinData <$> [second_input])
       ++ Client.SocketData failure_line :: (Client.StdinData <$> [result_chunk]))
    = ({| Client.isConnected := false; Client.awaitingReply := false;
          Client.messageQueue :=
            [accented_request ++ [10]; Buffer_toString tools_call_chunk;
             Buffer_toString result_chunk] |},
       [Client.SocketWriteText (lit "no token" ++ [10]);
        Client.StdoutWrite (Server.authentication_failed ++ [10]);
        Client.SocketEnd]).
Proof.
  assert (H1 : string_truthy (lit "no token") = true) by reflexivity.
  assert (H2 : Client.reply_accepted failure_line = false) by (vm_compute; reflexivity).
  split; [auto|].
  rewrite (tcp_client_rejected (lit "no token") [first_input]
             [second_input] [result_chunk] failure_line H1 H2).
  vm_compute. reflexivity.
Defined.

(** The instance of X28 at a server whose command ends with an option
    named [--require-roles]. *)
Lemma parseArgs_failures_witness :
  CLI.parseArgs parseInt_8080 None
    [lit "server"; lit "tcp"; lit "--port"; lit "8080"; lit "--"; lit "node";
     lit "--require-roles"] = CLI.TypeError
  ∧ ∃ before,
      [lit "server"; lit "tcp"; lit "--port"; lit "8080"; lit "--"; lit "node";
       lit "--require-roles"] = before ++ [lit "--require-roles"]
      ∧ (lit "--require-roles" ∉ before).
Proof.
  assert (H : CLI.parseArgs parseInt_8080 None
                [lit "server"; lit "tcp"; lit "--port"; lit "8080"; lit "--"; lit "node";
                 lit "--require-roles"] = CLI.TypeError) by (vm_compute; reflexivity).
  split; [exact H|].
  exact (proj2 (parseArgs_failures parseInt_8080 None _) H).
Defined.
